(** * Event scheduler: staffing rules, clock arithmetic and greedy assignment

    A shallow embedding of the scheduling core of [app.py]: the clock
    helpers ([time_to_minutes], [minutes_to_time], [overlaps], [is_time_ok]),
    the staffing rules ([calc_staff], [difficulty_from_guests]), the event
    constructor ([build_event]), the availability test ([can_assign]) and the
    greedy assignment step ([assign_event]) with the weekly run that folds it
    over the events, together with the roster filter of
    [save_employees_to_db].

    Python values are modelled as follows.
    - [int] is [Z] (unbounded).
    - [str] is [string]; a character stands for the code point of the same
      number (0..255), which is enough for clock texts; day codes, names and
      roles are only ever compared for equality, and the Hebrew ones of the
      source are written here as their UTF-8 bytes. On an ASCII text
      ([py_isascii]) the two readings are one, and [py_strip], [py_split],
      [py_isdigit] and [py_int] are Python's: a theorem that depends on
      which characters these functions take for blanks or digits is stated
      of ASCII texts or of clock texts.
    - [float] is Stdlib's [spec_float] at binary64 ([prec = 53],
      [emax = 1024]).
    - a [dict] keyed by employee name is a [gmap string _].
    - a raised exception is [None] in the [option] monad. *)

From Stdlib Require Import ZArith Lia List String Ascii DecimalString Sorted Permutation.
From Stdlib Require Import Floats.SpecFloat.
From stdpp Require Import gmap strings list.

Open Scope Z_scope.

(* ===================================================================== *)
(** * Python text primitives *)
(* ===================================================================== *)

Definition code (c : ascii) : Z := Z.of_N (N_of_ascii c).

(** [str.isspace] on one character: TAB..CR, FS..US, space, NEL, NBSP. *)
Definition py_isspace (c : ascii) : bool :=
  let n := code c in
  ((9 <=? n) && (n <=? 13)) || ((28 <=? n) && (n <=? 32))
  || (n =? 133) || (n =? 160).

(** A decimal digit ['0'..'9']. *)
Definition is_decimal (c : ascii) : bool :=
  let n := code c in (48 <=? n) && (n <=? 57).

Definition digit_value (c : ascii) : Z := code c - 48.

(** [str.isdigit] on one character: the decimal digits and the superscript
    digits U+00B2, U+00B3, U+00B9. *)
Definition py_isdigit_char (c : ascii) : bool :=
  let n := code c in
  is_decimal c || (n =? 178) || (n =? 179) || (n =? 185).

Fixpoint string_forallb (p : ascii -> bool) (s : string) : bool :=
  match s with
  | EmptyString => true
  | String c r => p c && string_forallb p r
  end.

(** [s.isdigit()]: every character is a digit and there is at least one. *)
Definition py_isdigit (s : string) : bool :=
  match s with
  | EmptyString => false
  | _ => string_forallb py_isdigit_char s
  end.

Fixpoint lstrip (p : ascii -> bool) (s : string) : string :=
  match s with
  | EmptyString => EmptyString
  | String c r => if p c then lstrip p r else s
  end.

Fixpoint rstrip (p : ascii -> bool) (s : string) : string :=
  match s with
  | EmptyString => EmptyString
  | String c r =>
      match rstrip p r with
      | EmptyString => if p c then EmptyString else String c EmptyString
      | r' => String c r'
      end
  end.

(** [s.strip()]. *)
Definition py_strip (s : string) : string := rstrip py_isspace (lstrip py_isspace s).

(** [s.split(sep)] for a one-character separator: one more part than there
    are separators. *)
Fixpoint py_split (sep : ascii) (s : string) : list string :=
  match s with
  | EmptyString => [EmptyString]
  | String c r =>
      if Ascii.eqb c sep then EmptyString :: py_split sep r
      else match py_split sep r with
           | h :: t => String c h :: t
           | [] => [String c EmptyString]
           end
  end.

(** ** [int(s)]

    CPython maps the text to ASCII (a non-ASCII space becomes a blank, any
    other non-ASCII character is rejected: there is no decimal digit between
    128 and 255), then reads blanks, an optional sign, decimal digits with
    single underscores between them, and blanks up to the end. The blanks are
    those of C's [isspace]; FS..US are not among them. *)

Definition int_space (c : ascii) : bool :=
  let n := code c in
  ((9 <=? n) && (n <=? 13)) || (n =? 32) || (n =? 133) || (n =? 160).

(** Digits with single inner underscores, most significant first; [acc] is
    the value read so far and [prev_us] tells that the last character was an
    underscore. *)
Fixpoint int_digits (s : string) (acc : Z) (prev_us : bool) : option Z :=
  match s with
  | EmptyString => if prev_us then None else Some acc
  | String c r =>
      if is_decimal c then int_digits r (10 * acc + digit_value c) false
      else if Ascii.eqb c "_" then
        if prev_us then None else int_digits r acc true
      else None
  end.

Definition int_unsigned (s : string) : option Z :=
  match s with
  | String c r => if is_decimal c then int_digits r (digit_value c) false else None
  | EmptyString => None
  end.

Definition py_int (s : string) : option Z :=
  match rstrip int_space (lstrip int_space s) with
  | String "+" r => int_unsigned r
  | String "-" r => Z.opp <$> int_unsigned r
  | body => int_unsigned body
  end.

(** ** [format(n, "02d")]: decimal, sign first, zero-padded to two columns. *)

Definition py_str_nat (n : Z) : string := NilZero.string_of_uint (N.to_uint (Z.to_N n)).

Definition py_format_02d (n : Z) : string :=
  if n <? 0 then "-" +:+ py_str_nat (- n)
  else
    let d := py_str_nat n in
    if (String.length d <? 2)%nat then "0" +:+ d else d.

(* ===================================================================== *)
(** * Time arithmetic *)
(* ===================================================================== *)

(** [h, m = t.split(":")] needs exactly two parts. *)
Definition time_to_minutes (t : string) : option Z :=
  match py_split ":" t with
  | [h; m] =>
      hv ← py_int h;
      mv ← py_int m;
      Some (hv * 60 + mv)
  | _ => None
  end.

Definition minutes_to_time (x : Z) : string :=
  let x := x mod (24 * 60) in
  let h := x / 60 in
  let m := x mod 60 in
  py_format_02d h +:+ ":" +:+ py_format_02d m.

Definition overlaps (a_start a_end b_start b_end : Z) : bool :=
  (a_start <? b_end) && (b_start <? a_end).

(** The form's check of a clock text. [None] when the call raises: unpacking
    a split of other than two parts, or [int] on a superscript digit. *)
Definition is_time_ok (t : string) : option bool :=
  let t := py_strip t in
  if negb (String.length t =? 5)%nat || negb (bool_decide (String.get 2 t = Some ":"%char)) then Some false
  else
    match py_split ":" t with
    | [hh; mm] =>
        if negb (py_isdigit hh && py_isdigit mm) then Some false
        else
          h ← py_int hh;
          m ← py_int mm;
          Some ((0 <=? h) && (h <=? 23) && (0 <=? m) && (m <=? 59))
    | _ => None
    end.

(* ===================================================================== *)
(** * Python floats: [a / b] on ints and [math.ceil] *)
(* ===================================================================== *)

Definition prec : Z := 53.
Definition emax : Z := 1024.

(** [a / b] for two ints is the quotient rounded once to the nearest
    binary64 (ties to even), whatever the size of [a] and [b]: [SFdiv] on the
    exact integers. Python raises ZeroDivisionError for [b = 0] and
    OverflowError when the rounded quotient is not finite. *)
Definition py_truediv (a b : Z) : option spec_float :=
  match a, b with
  | _, Z0 => None
  | Z0, _ => Some (S754_zero (b <? 0))
  | _, _ =>
      match SFdiv prec emax (S754_finite (a <? 0) (Z.to_pos (Z.abs a)) 0)
                            (S754_finite (b <? 0) (Z.to_pos (Z.abs b)) 0) with
      | S754_infinity _ => None
      | S754_nan => None
      | q => Some q
      end
  end.

(** [math.ceil(x)]: the least int not below [x]; raises on an infinity or
    a NaN. *)
Definition py_ceil (x : spec_float) : option Z :=
  match x with
  | S754_zero _ => Some 0
  | S754_finite s m e =>
      let v := if s then Z.neg m else Z.pos m in
      Some (if 0 <=? e then v * 2 ^ e else - ((- v) / 2 ^ (- e)))
  | _ => None
  end.

(* ===================================================================== *)
(** * Staffing rules *)
(* ===================================================================== *)

Definition calc_staff (guests : Z) : option (Z * Z) :=
  q20 ← py_truediv guests 20;
  c20 ← py_ceil q20;
  let waiters := Z.max 3 c20 in
  q60 ← py_truediv guests 60;
  c60 ← py_ceil q60;
  let bartenders := Z.max 1 c60 in
  Some (waiters, bartenders).

Definition difficulty_from_guests (guests : Z) : Z :=
  if guests <=? 120 then 2
  else if guests <=? 250 then 3
  else if guests <=? 400 then 4
  else 5.

(* ===================================================================== *)
(** * Records: employees, events, busy intervals *)
(* ===================================================================== *)

(** An employee record as [load_employees_from_db] and
    [build_default_employees] make it. The database id is left out: the
    scheduling code never reads it. *)
Module Emp.
Record t := mk {
  name : string;
  phone : string;
  role : string;
  days : list string;
  rank : Z
}.
End Emp.

(** The event dictionary of [build_event], one field per key. *)
Module Ev.
Record t := mk {
  day : string;
  hall : string;
  guests : Z;
  difficulty : Z;
  start_time : string;
  end_time : string;
  arrival_time : string;
  arrival_min : Z;
  start_min : Z;
  end_min : Z;
  waiters : Z;
  bartenders : Z;
  waiter_names : list string;
  bartender_names : list string;
  missing_waiters : Z;
  missing_bartenders : Z
}.
End Ev.

(** A busy interval [(day, start, end)] of the schedule. *)
Abbreviation busy := (string * Z * Z)%type.

(** The load counter [assigned] and the availability index [schedule]. *)
Abbreviation load_counter := (gmap string Z).
Abbreviation availability := (gmap string (list busy)).

(* ===================================================================== *)
(** * Event construction *)
(* ===================================================================== *)

Definition build_event (day hall : string) (guests : Z) (start_time end_time : string)
  : option Ev.t :=
  '(waiters, bartenders) ← calc_staff guests;
  start_min ← time_to_minutes start_time;
  end_min ← time_to_minutes end_time;
  let end_min := if end_min <=? start_min then end_min + 24 * 60 else end_min in
  let arrival_min := start_min - 120 in
  let difficulty := difficulty_from_guests guests in
  Some {| Ev.day := day;
          Ev.hall := hall;
          Ev.guests := guests;
          Ev.difficulty := difficulty;
          Ev.start_time := start_time;
          Ev.end_time := end_time;
          Ev.arrival_time := minutes_to_time arrival_min;
          Ev.arrival_min := arrival_min;
          Ev.start_min := start_min;
          Ev.end_min := end_min;
          Ev.waiters := waiters;
          Ev.bartenders := bartenders;
          Ev.waiter_names := [];
          Ev.bartender_names := [];
          Ev.missing_waiters := 0;
          Ev.missing_bartenders := 0 |}.

(* ===================================================================== *)
(** * Assignment *)
(* ===================================================================== *)

(** The loop of [can_assign] over the intervals recorded for one name. *)
Fixpoint can_assign_loop (ivs : list busy) (event : Ev.t) : bool :=
  match ivs with
  | [] => true
  | (d, s, e) :: rest =>
      if bool_decide (d = Ev.day event)
         && overlaps s e (Ev.arrival_min event) (Ev.end_min event)
      then false
      else can_assign_loop rest event
  end.

Definition can_assign (name : string) (event : Ev.t) (schedule : availability) : bool :=
  can_assign_loop (default [] (schedule !! name)) event.

(** The two sort keys: [(load, rank)] for a difficulty of 4 or more,
    [(load, -rank)] below. *)
Definition sort_key (difficulty : Z) (assigned : load_counter) (e : Emp.t) : Z * Z :=
  if 4 <=? difficulty
  then (default 0 (assigned !! Emp.name e), Emp.rank e)
  else (default 0 (assigned !! Emp.name e), - Emp.rank e).

(** Python's order on pairs of ints: [a <= b]. *)
Definition tuple_le (a b : Z * Z) : bool :=
  (a.1 <? b.1) || ((a.1 =? b.1) && (a.2 <=? b.2)).

(** [list.sort(key=...)] is a stable ascending sort; the result of a stable
    sort does not depend on the algorithm, so insertion from the right stands
    for it: an element goes in front of the first one whose key is not
    smaller, hence in front of the equal keys that followed it. *)
Section Sort.
Context {A : Type} (key : A -> Z * Z).

Fixpoint insert_by (x : A) (l : list A) : list A :=
  match l with
  | [] => [x]
  | y :: r => if tuple_le (key x) (key y) then x :: y :: r else y :: insert_by x r
  end.

Fixpoint py_sort (l : list A) : list A :=
  match l with
  | [] => []
  | x :: r => insert_by x (py_sort r)
  end.
End Sort.

(** The candidates of one role on the event's day, sorted. *)
Definition candidates (role : string) (event : Ev.t) (employees : list Emp.t)
    (assigned : load_counter) : list Emp.t :=
  let available := filter (fun e => Ev.day event ∈ Emp.days e) employees in
  let pool := filter (fun e => Emp.role e = role) available in
  py_sort (sort_key (Ev.difficulty event) assigned) pool.

(** The selection loop: stop as soon as [need] are chosen, else take the
    candidate when it is free. *)
Fixpoint choose (need : Z) (event : Ev.t) (schedule : availability)
    (cands chosen : list Emp.t) : list Emp.t :=
  match cands with
  | [] => chosen
  | e :: rest =>
      if Z.of_nat (length chosen) =? need then chosen
      else if can_assign (Emp.name e) event schedule
           then choose need event schedule rest (chosen ++ [e])
           else choose need event schedule rest chosen
  end.

Definition chosen_for (role : string) (need : Z) (event : Ev.t) (employees : list Emp.t)
    (assigned : load_counter) (schedule : availability) : list Emp.t :=
  choose need event schedule (candidates role event employees assigned) [].

(** One turn of the commit loop. *)
Definition commit (event : Ev.t) (st : load_counter * availability) (e : Emp.t)
  : load_counter * availability :=
  let '(assigned, schedule) := st in
  (<[Emp.name e := default 0 (assigned !! Emp.name e) + 1]> assigned,
   <[Emp.name e := default [] (schedule !! Emp.name e)
                   ++ [(Ev.day event, Ev.arrival_min event, Ev.end_min event)]]> schedule).

(** [assign_event] updates the event and the two dictionaries in place; here
    it returns the three. *)
Definition assign_event (event : Ev.t) (employees : list Emp.t)
    (assigned : load_counter) (schedule : availability)
  : Ev.t * load_counter * availability :=
  let chosen_w := chosen_for "waiter" (Ev.waiters event) event employees assigned schedule in
  let chosen_b := chosen_for "bartender" (Ev.bartenders event) event employees assigned schedule in
  let '(assigned', schedule') := fold_left (commit event) (chosen_w ++ chosen_b) (assigned, schedule) in
  let event' :=
    {| Ev.day := Ev.day event;
       Ev.hall := Ev.hall event;
       Ev.guests := Ev.guests event;
       Ev.difficulty := Ev.difficulty event;
       Ev.start_time := Ev.start_time event;
       Ev.end_time := Ev.end_time event;
       Ev.arrival_time := Ev.arrival_time event;
       Ev.arrival_min := Ev.arrival_min event;
       Ev.start_min := Ev.start_min event;
       Ev.end_min := Ev.end_min event;
       Ev.waiters := Ev.waiters event;
       Ev.bartenders := Ev.bartenders event;
       Ev.waiter_names := map Emp.name chosen_w;
       Ev.bartender_names := map Emp.name chosen_b;
       Ev.missing_waiters := Z.max 0 (Ev.waiters event - Z.of_nat (length chosen_w));
       Ev.missing_bartenders := Z.max 0 (Ev.bartenders event - Z.of_nat (length chosen_b)) |} in
  (event', assigned', schedule').

(** The weekly run: [assigned = {}], [schedule = {}], then [assign_event] on
    each event in order. The state carries the events done so far. *)
Definition run_step (employees : list Emp.t)
    (st : list Ev.t * load_counter * availability) (ev : Ev.t)
  : list Ev.t * load_counter * availability :=
  let '(done, assigned, schedule) := st in
  let '(ev', assigned', schedule') := assign_event ev employees assigned schedule in
  (done ++ [ev'], assigned', schedule').

Definition run_week (employees : list Emp.t) (week : list Ev.t)
  : list Ev.t * load_counter * availability :=
  fold_left (run_step employees) week ([], ∅, ∅).

(** An event request as the form stores it: day, hall, guests, start and
    end text. *)
Abbreviation request := (string * string * Z * string * string)%type.

(** [week = [build_event(...) for e in events]]: one failure fails all. *)
Definition build_week (requests : list request) : option (list Ev.t) :=
  mapM (fun '(day, hall, guests, start_time, end_time) =>
          build_event day hall guests start_time end_time) requests.

(* ===================================================================== *)
(** * The default roster *)
(* ===================================================================== *)

Definition build_default_employees : list Emp.t :=
  [ Emp.mk "רועי" "972500000001" "waiter" ["ד"; "ה"; "ו"] 1;
    Emp.mk "עדן" "972500000002" "waiter" ["ב"; "ד"; "ה"; "ו"] 2;
    Emp.mk "שי" "972500000003" "waiter" ["ה"; "ו"; "ש"] 2;
    Emp.mk "נועם" "972500000004" "waiter" ["ג"; "ד"; "ה"] 3;
    Emp.mk "גל" "972500000005" "waiter" ["ה"; "ו"; "ש"] 3;
    Emp.mk "אור" "972500000006" "waiter" ["ו"; "ש"] 4;
    Emp.mk "אלי" "972500000007" "waiter" ["ב"; "ה"; "ו"] 4;
    Emp.mk "מיכאל" "972500000008" "waiter" ["ה"; "ו"] 5;
    Emp.mk "דני" "972500000009" "bartender" ["ד"; "ה"; "ו"; "ש"] 1;
    Emp.mk "מאור" "972500000010" "bartender" ["ב"; "ד"; "ה"; "ו"] 2;
    Emp.mk "אבי" "972500000011" "bartender" ["ה"; "ו"; "ש"] 3;
    Emp.mk "ברק" "972500000012" "bartender" ["ה"; "ו"] 4 ].

(** The event of the form's default entry on a Thursday: 150 guests from
    "19:00" to "01:00" (see [thursday_dinner_built]). *)
Definition thursday_dinner : Ev.t :=
  {| Ev.day := "ה"; Ev.hall := "A"; Ev.guests := 150; Ev.difficulty := 3;
     Ev.start_time := "19:00"; Ev.end_time := "01:00"; Ev.arrival_time := "17:00";
     Ev.arrival_min := 1020; Ev.start_min := 1140; Ev.end_min := 1500;
     Ev.waiters := 8; Ev.bartenders := 3;
     Ev.waiter_names := []; Ev.bartender_names := [];
     Ev.missing_waiters := 0; Ev.missing_bartenders := 0 |}.

(** Three requests for one Thursday, the second overlapping the first, and
    the week [build_week] makes of them. *)
Definition thursday_requests : list request :=
  [ ("ה", "A", 150, "10:00", "14:00");
    ("ה", "B", 150, "12:00", "16:00");
    ("ה", "A", 100, "18:00", "23:00") ]%string.

Definition thursday_week : list Ev.t := default [] (build_week thursday_requests).

(** A waiter record with an empty name, as [assign_event] could be handed
    it. *)
Definition nameless_waiter : Emp.t :=
  {| Emp.name := EmptyString; Emp.phone := "972500000099"; Emp.role := "waiter";
     Emp.days := ["ה"]; Emp.rank := 1 |}.

(* ===================================================================== *)
(** * Roster storage *)
(* ===================================================================== *)

(** A record handed to [save_employees_to_db]: every key may be absent or
    [None], which [e.get(k) or default] treats alike. *)
Module Raw.
Record t := mk {
  name : option string;
  phone : option string;
  role : option string;
  days : list string;
  rank : option Z
}.
End Raw.

(** A row of the [employees] table: name, phone, role, days, rank. *)
Abbreviation row := (string * string * string * string * Z)%type.

(** [sep.join(parts)]. *)
Definition py_join (sep : string) (parts : list string) : string :=
  match parts with
  | [] => EmptyString
  | x :: r => fold_left (fun acc y => acc +:+ sep +:+ y) r x
  end.

(** [[d.strip() for d in ds if d.strip()]]. *)
Definition strip_nonblank (ds : list string) : list string :=
  map py_strip (filter (fun d => py_strip d ≠ EmptyString) ds).

(** The body of the loop of [save_employees_to_db]: the row inserted for a
    record, or [None] when the record is skipped. [rank or 1] turns a rank
    of 0 into 1. *)
Definition save_row (e : Raw.t) : option row :=
  let name := py_strip (default EmptyString (Raw.name e)) in
  let phone := py_strip (default EmptyString (Raw.phone e)) in
  let role := py_strip (default EmptyString (Raw.role e)) in
  let days_str := py_join "," (strip_nonblank (Raw.days e)) in
  let rank := match Raw.rank e with
              | Some r => if r =? 0 then 1 else r
              | None => 1
              end in
  if bool_decide (name = EmptyString) then None
  else if negb (bool_decide (role = "waiter"%string) || bool_decide (role = "bartender"%string))
       then None
       else Some (name, phone, role, days_str, rank).

(** The table after [save_employees_to_db]: emptied, then one row per kept
    record, in order. *)
Definition save_employees_to_db (employees : list Raw.t) : list row :=
  fold_left (fun table e => match save_row e with
                            | Some r => table ++ [r]
                            | None => table
                            end) employees [].

(** The body of the loop of [load_employees_from_db]. *)
Definition load_row (r : row) : Emp.t :=
  let '(name, phone, role, days, rank) := r in
  {| Emp.name := name;
     Emp.phone := phone;
     Emp.role := role;
     Emp.days := strip_nonblank (py_split "," days);
     Emp.rank := rank |}.

(** [load_employees_from_db] on the rows as the query returns them (some
    reordering of the table: [ORDER BY role, name]). *)
Definition load_employees_from_db (rows : list row) : list Emp.t := map load_row rows.

(* ===================================================================== *)
(** * Notions of the specification *)
(* ===================================================================== *)

(** [c] is the ceiling of [g / d]: the least integer with [g <= d * c]. *)
Definition is_ceil (c g d : Z) : Prop := d * (c - 1) < g <= d * c.

(** The clock texts of the specification: five characters, a colon at
    index 2, decimal digits around it, hour at most 23, minute at most 59. *)
Definition clock_text (t : string) : bool :=
  match t with
  | String a (String b (String c (String d (String e EmptyString)))) =>
      Ascii.eqb c ":" && is_decimal a && is_decimal b && is_decimal d && is_decimal e
      && (10 * digit_value a + digit_value b <=? 23)
      && (10 * digit_value d + digit_value e <=? 59)
  | _ => false
  end.

(** The hour and the minute such a text shows. *)
Definition clock_hour (t : string) : Z :=
  match t with
  | String a (String b _) => 10 * digit_value a + digit_value b
  | _ => 0
  end.

Definition clock_minute (t : string) : Z :=
  match t with
  | String _ (String _ (String _ (String d (String e _)))) => 10 * digit_value d + digit_value e
  | _ => 0
  end.

(** Two busy intervals of one list, at different positions and on the same
    day, never overlap. *)
Definition non_overlapping (ivs : list busy) : Prop :=
  forall (i j : nat) (d : string) (s1 e1 s2 e2 : Z),
    i <> j ->
    ivs !! i = Some (d, s1, e1) ->
    ivs !! j = Some (d, s2, e2) ->
    overlaps s1 e1 s2 e2 = false.

(** The invariant of the availability index: the intervals recorded under
    each name are non-overlapping. *)
Definition schedule_ok (schedule : availability) : Prop :=
  forall (n : string) (ivs : list busy), schedule !! n = Some ivs -> non_overlapping ivs.

(** The interval [assign_event] records for an event. *)
Definition window (event : Ev.t) : busy :=
  (Ev.day event, Ev.arrival_min event, Ev.end_min event).

(** The key order of the sort, and a list sorted by it. *)
Definition key_le {A} (key : A -> Z * Z) (x y : A) : Prop := tuple_le (key x) (key y) = true.

(** The load of an employee: [assigned.get(name, 0)]. *)
Definition load_of (assigned : load_counter) (e : Emp.t) : Z :=
  default 0 (assigned !! Emp.name e).

(** The order the specification gives the candidates: smaller load first;
    at equal load, smaller rank first for a difficulty of 4 or more and
    larger rank first below. *)
Definition comes_before (difficulty : Z) (assigned : load_counter) (x y : Emp.t) : Prop :=
  load_of assigned x < load_of assigned y
  \/ (load_of assigned x = load_of assigned y
      /\ if 4 <=? difficulty then Emp.rank x <= Emp.rank y else Emp.rank y <= Emp.rank x).

(** [isFree]: the employee has no busy interval that overlaps the event's
    window on the event's day. *)
Definition is_free (event : Ev.t) (schedule : availability) (e : Emp.t) : Prop :=
  can_assign (Emp.name e) event schedule = true.

#[global] Instance is_free_dec event schedule e : Decision (is_free event schedule e).
Proof. unfold is_free. apply _. Defined.

(** The pool of one role: the employees available on the event's day that
    have the role, in roster order. *)
Definition pool (role : string) (event : Ev.t) (employees : list Emp.t) : list Emp.t :=
  filter (fun e => Emp.role e = role) (filter (fun e => Ev.day event ∈ Emp.days e) employees).

(* ===================================================================== *)
(** * Shifts per employee and the event form *)
(* ===================================================================== *)

(** [if name in shifts: shifts[name].append(ev)]. *)
Definition add_shift (ev : Ev.t) (shifts : gmap string (list Ev.t)) (name : string)
  : gmap string (list Ev.t) :=
  match shifts !! name with
  | Some l => <[name := l ++ [ev]]> shifts
  | None => shifts
  end.

(** The two inner loops of [build_employee_shifts_map] for one event: the
    waiter names, then the bartender names. *)
Definition shifts_of_event (shifts : gmap string (list Ev.t)) (ev : Ev.t)
  : gmap string (list Ev.t) :=
  fold_left (add_shift ev) (Ev.bartender_names ev)
    (fold_left (add_shift ev) (Ev.waiter_names ev) shifts).

(** [build_employee_shifts_map]: an empty list under every roster name, then
    every event appended under the names it carries. *)
Definition build_employee_shifts_map (week : list Ev.t) (employees : list Emp.t)
  : gmap string (list Ev.t) :=
  fold_left shifts_of_event week
    (fold_left (fun shifts e => <[Emp.name e := []]> shifts) employees ∅).

(** The "add event" button: both texts must pass [is_time_ok], else an error
    is shown and the list stays; the request is stored with its texts
    stripped. [None] when [is_time_ok] raises. [or] does not look at the end
    text once the start text is refused. *)
Definition add_event (events : list request) (day hall : string) (guests : Z)
    (start_time end_time : string) : option (list request) :=
  ok_start ← is_time_ok start_time;
  if negb ok_start then Some events
  else
    ok_end ← is_time_ok end_time;
    if negb ok_end then Some events
    else Some (events ++ [(day, hall, guests, py_strip start_time, py_strip end_time)]).

(** What the form guarantees of a stored request: a guest count within the
    bounds of the number field and two clock texts. *)
Definition form_request (r : request) : Prop :=
  let '(_, _, guests, start_time, end_time) := r in
  1 <= guests <= 3000 /\ clock_text start_time = true /\ clock_text end_time = true.

(** Two event records that differ at most in the four fields [assign_event]
    writes. *)
Definition same_request (ev ev' : Ev.t) : Prop :=
  Ev.day ev' = Ev.day ev /\ Ev.hall ev' = Ev.hall ev /\ Ev.guests ev' = Ev.guests ev
  /\ Ev.difficulty ev' = Ev.difficulty ev
  /\ Ev.start_time ev' = Ev.start_time ev /\ Ev.end_time ev' = Ev.end_time ev
  /\ Ev.arrival_time ev' = Ev.arrival_time ev
  /\ Ev.arrival_min ev' = Ev.arrival_min ev /\ Ev.start_min ev' = Ev.start_min ev
  /\ Ev.end_min ev' = Ev.end_min ev
  /\ Ev.waiters ev' = Ev.waiters ev /\ Ev.bartenders ev' = Ev.bartenders ev.

(** The names an assigned event carries, waiters first. *)
Definition assigned_names (ev : Ev.t) : list string :=
  Ev.waiter_names ev ++ Ev.bartender_names ev.

(** How often a name occurs in a list of names. *)
Definition occurrences (n : string) (names : list string) : nat :=
  length (filter (fun m => m = n) names).

(** The intervals and the shifts a list of assigned events gives a name: one
    per occurrence of the name on each event, in event order. *)
Definition intervals_of (n : string) (events : list Ev.t) : list busy :=
  flat_map (fun ev => replicate (occurrences n (assigned_names ev)) (window ev)) events.

Definition shifts_of (n : string) (events : list Ev.t) : list Ev.t :=
  flat_map (fun ev => replicate (occurrences n (assigned_names ev)) ev) events.

(** Every name on the event is that of a roster employee of the matching
    role who works on the event's day. *)
Definition staffed_from (employees : list Emp.t) (ev : Ev.t) : Prop :=
  (forall n, n ∈ Ev.waiter_names ev ->
     exists e, e ∈ employees /\ Emp.name e = n /\ Emp.role e = "waiter"%string
               /\ Ev.day ev ∈ Emp.days e)
  /\ (forall n, n ∈ Ev.bartender_names ev ->
        exists e, e ∈ employees /\ Emp.name e = n /\ Emp.role e = "bartender"%string
                  /\ Ev.day ev ∈ Emp.days e).


(** [s.isascii()]: every character is below U+0080. *)
Definition py_isascii (s : string) : bool :=
  string_forallb (fun c => code c <? 128) s.

(** A record whose texts are ASCII and whose rank, 1 when there is none,
    fits the signed 64-bit INTEGER column of the table (beyond it the INSERT
    raises OverflowError). *)
Definition plain_record (r : Raw.t) : Prop :=
  py_isascii (default EmptyString (Raw.name r)) = true
  /\ py_isascii (default EmptyString (Raw.phone r)) = true
  /\ py_isascii (default EmptyString (Raw.role r)) = true
  /\ Forall (fun d => py_isascii d = true) (Raw.days r)
  /\ - 2 ^ 63 <= default 1 (Raw.rank r) < 2 ^ 63.

(** The grouping of the week before the manager's sheet is made:
    [by_day.setdefault(ev["day"], []).append(ev)] for every event. *)
Definition by_day (week : list Ev.t) : gmap string (list Ev.t) :=
  fold_left (fun by_day ev =>
               <[Ev.day ev := default [] (by_day !! Ev.day ev) ++ [ev]]> by_day)
    week ∅.

(* ===================================================================== *)
(** * The stable sort *)
(* ===================================================================== *)

Section SortFacts.
Context {A : Type} (key : A -> Z * Z).

Lemma tuple_le_refl (a : Z * Z) : tuple_le a a = true.
Proof. unfold tuple_le. destruct a as [x y]; simpl. apply orb_true_iff; right. apply andb_true_iff; split; lia. Qed.

Lemma tuple_le_total (a b : Z * Z) : tuple_le a b = false -> tuple_le b a = true.
Proof.
  unfold tuple_le. destruct a as [x y], b as [u v]; simpl.
  rewrite orb_false_iff, andb_false_iff, orb_true_iff, andb_true_iff.
  intros [H1 H2]. destruct (Z.ltb_spec u x); [ by left | right ].
  destruct H2 as [H2 | H2]; lia.
Qed.

Lemma tuple_le_trans (a b c : Z * Z) :
  tuple_le a b = true -> tuple_le b c = true -> tuple_le a c = true.
Proof.
  unfold tuple_le. destruct a as [x y], b as [u v], c as [p q]; simpl.
  rewrite !orb_true_iff, !andb_true_iff. intros [H1 | H1] [H2 | H2]; lia.
Qed.

Lemma insert_by_perm (x : A) (l : list A) : insert_by key x l ≡ₚ x :: l.
Proof.
  induction l as [| y r IH]; simpl; [ done | ].
  destruct (tuple_le (key x) (key y)); [ done | ].
  rewrite IH. apply Permutation_swap.
Qed.

Lemma py_sort_perm (l : list A) : py_sort key l ≡ₚ l.
Proof.
  induction l as [| x r IH]; simpl; [ done | ].
  by rewrite insert_by_perm, IH.
Qed.

Lemma insert_by_sorted (x : A) (l : list A) :
  StronglySorted (key_le key) l -> StronglySorted (key_le key) (insert_by key x l).
Proof.
  induction l as [| y r IH]; simpl; intros Hs.
  - repeat constructor.
  - apply StronglySorted_inv in Hs as [Hr Hy].
    destruct (tuple_le (key x) (key y)) eqn:Hxy.
    + constructor; [ by constructor | ].
      constructor; [ done | ].
      eapply Forall_impl; [ exact Hy | ].
      intros z Hz. unfold key_le in *. by eapply tuple_le_trans.
    + constructor; [ by apply IH | ].
      rewrite insert_by_perm. constructor; [ | done ].
      by apply tuple_le_total.
Qed.

Lemma py_sort_sorted (l : list A) : StronglySorted (key_le key) (py_sort key l).
Proof.
  induction l as [| x r IH]; simpl; [ constructor | by apply insert_by_sorted ].
Qed.

(** Stability: the elements of one key keep their order. *)
Lemma insert_by_stable (k : Z * Z) (x : A) (l : list A) :
  filter (fun e => key e = k) (insert_by key x l) = filter (fun e => key e = k) (x :: l).
Proof.
  induction l as [| y r IH]; simpl; [ done | ].
  destruct (tuple_le (key x) (key y)) eqn:Hxy; [ done | ].
  rewrite (filter_cons _ y), IH, !filter_cons.
  destruct (decide (key y = k)) as [Hy | Hy], (decide (key x = k)) as [Hx | Hx]; try done.
  rewrite Hx, Hy, tuple_le_refl in Hxy. discriminate.
Qed.

Lemma py_sort_stable (k : Z * Z) (l : list A) :
  filter (fun e => key e = k) (py_sort key l) = filter (fun e => key e = k) l.
Proof.
  induction l as [| x r IH]; simpl; [ done | ].
  rewrite insert_by_stable, !filter_cons, IH. done.
Qed.
End SortFacts.

(* ===================================================================== *)
(** * The selection loop and the result of [assign_event] *)
(* ===================================================================== *)

Lemma key_le_comes_before (difficulty : Z) (assigned : load_counter) (x y : Emp.t) :
  key_le (sort_key difficulty assigned) x y <-> comes_before difficulty assigned x y.
Proof.
  unfold key_le, comes_before, sort_key, tuple_le, load_of.
  destruct (4 <=? difficulty); simpl;
    rewrite orb_true_iff, andb_true_iff, Z.ltb_lt, Z.eqb_eq, Z.leb_le; lia.
Qed.

Lemma StronglySorted_weaken {A} (R S : A -> A -> Prop) (l : list A) :
  (forall x y, R x y -> S x y) -> StronglySorted R l -> StronglySorted S l.
Proof.
  intros HRS. induction 1 as [| x l Hl IH Hx]; constructor; [ done | ].
  eapply Forall_impl; [ exact Hx | ]. intros y. apply HRS.
Qed.

Lemma candidates_perm role ev employees assigned :
  candidates role ev employees assigned ≡ₚ pool role ev employees.
Proof. apply py_sort_perm. Qed.

Lemma candidates_sorted role ev employees assigned :
  StronglySorted (comes_before (Ev.difficulty ev) assigned) (candidates role ev employees assigned).
Proof.
  unfold candidates.
  eapply StronglySorted_weaken; [ | apply py_sort_sorted ].
  intros x y. apply key_le_comes_before.
Qed.

Lemma candidates_stable role ev employees assigned (l r : Z) :
  filter (fun e => load_of assigned e = l /\ Emp.rank e = r) (candidates role ev employees assigned)
  = filter (fun e => load_of assigned e = l /\ Emp.rank e = r) (pool role ev employees).
Proof.
  unfold candidates, pool.
  set (p := filter _ (filter _ employees)).
  set (key := sort_key (Ev.difficulty ev) assigned).
  pose (k := if 4 <=? Ev.difficulty ev then (l, r) else (l, - r)).
  assert (Hk : forall e, (load_of assigned e = l /\ Emp.rank e = r) <-> key e = k).
  { intros e. unfold key, k, sort_key, load_of. destruct (4 <=? Ev.difficulty ev).
    - split; [ intros [-> ->]; done | intros [= -> ->]; done ].
    - split; [ intros [-> ->]; done | intros [= H1 H2]; split; [ done | lia ] ]. }
  rewrite (list_filter_iff _ (fun e => key e = k) (py_sort key p)) by done.
  rewrite (list_filter_iff _ (fun e => key e = k) p) by done.
  apply py_sort_stable.
Qed.

(** The loop takes the first [need] free candidates, in order. *)
Lemma choose_take need ev schedule cands chosen :
  Z.of_nat (length chosen) <= need ->
  choose need ev schedule cands chosen
  = chosen ++ take (Z.to_nat need - length chosen) (filter (is_free ev schedule) cands).
Proof.
  revert chosen. induction cands as [| e rest IH]; intros chosen Hlen; simpl.
  - by rewrite filter_nil, take_nil, app_nil_r.
  - destruct (Z.eqb_spec (Z.of_nat (length chosen)) need) as [Heq | Hne].
    + replace (Z.to_nat need - length chosen)%nat with 0%nat by lia.
      by rewrite take_0, app_nil_r.
    + rewrite filter_cons.
      destruct (decide (is_free ev schedule e)) as [Hfree | Hbusy].
      * rewrite Hfree.
        rewrite IH by (rewrite length_app; simpl; lia).
        rewrite length_app; simpl.
        replace (Z.to_nat need - length chosen)%nat
          with (S (Z.to_nat need - (length chosen + 1)))%nat by lia.
        simpl. by rewrite <- app_assoc.
      * apply not_true_is_false in Hbusy. rewrite Hbusy. by apply IH.
Qed.

Lemma chosen_for_take role need ev employees assigned schedule :
  0 <= need ->
  chosen_for role need ev employees assigned schedule
  = take (Z.to_nat need) (filter (is_free ev schedule) (candidates role ev employees assigned)).
Proof.
  intros Hneed. unfold chosen_for. rewrite choose_take by (simpl; lia).
  simpl. by rewrite Nat.sub_0_r.
Qed.

(** The fields [assign_event] writes, and those it leaves. *)
Lemma assign_event_waiter_names ev employees assigned schedule :
  Ev.waiter_names (assign_event ev employees assigned schedule).1.1
  = map Emp.name (chosen_for "waiter" (Ev.waiters ev) ev employees assigned schedule).
Proof. unfold assign_event. by destruct (fold_left _ _ _). Qed.

Lemma assign_event_bartender_names ev employees assigned schedule :
  Ev.bartender_names (assign_event ev employees assigned schedule).1.1
  = map Emp.name (chosen_for "bartender" (Ev.bartenders ev) ev employees assigned schedule).
Proof. unfold assign_event. by destruct (fold_left _ _ _). Qed.

Lemma assign_event_missing_waiters ev employees assigned schedule :
  Ev.missing_waiters (assign_event ev employees assigned schedule).1.1
  = Z.max 0 (Ev.waiters ev
             - Z.of_nat (length (chosen_for "waiter" (Ev.waiters ev) ev employees assigned schedule))).
Proof. unfold assign_event. by destruct (fold_left _ _ _). Qed.

Lemma assign_event_missing_bartenders ev employees assigned schedule :
  Ev.missing_bartenders (assign_event ev employees assigned schedule).1.1
  = Z.max 0 (Ev.bartenders ev
             - Z.of_nat (length (chosen_for "bartender" (Ev.bartenders ev) ev employees assigned schedule))).
Proof. unfold assign_event. by destruct (fold_left _ _ _). Qed.

Lemma assign_event_required ev employees assigned schedule :
  Ev.waiters (assign_event ev employees assigned schedule).1.1 = Ev.waiters ev
  /\ Ev.bartenders (assign_event ev employees assigned schedule).1.1 = Ev.bartenders ev.
Proof. unfold assign_event. by destruct (fold_left _ _ _). Qed.

Lemma chosen_for_length role need ev employees assigned schedule :
  0 <= need ->
  Z.of_nat (length (chosen_for role need ev employees assigned schedule)) <= need.
Proof.
  intros Hneed. rewrite chosen_for_take by done. rewrite length_take. lia.
Qed.

(* ===================================================================== *)
(** * Difficulty tiers *)
(* ===================================================================== *)

(** C8. [difficulty_from_guests] sends every guest count to exactly one of
    the tiers 2, 3, 4, 5: tier 2 exactly up to 120, tier 3 exactly from 121
    to 250, tier 4 exactly from 251 to 400 and tier 5 exactly above 400; it
    never decreases when the guest count grows; and the six boundary values
    120, 121, 250, 251, 400, 401 get 2, 3, 3, 4, 4, 5. *)
Theorem difficulty_from_guests_tiers :
  (forall g, difficulty_from_guests g = 2 <-> g <= 120)
  /\ (forall g, difficulty_from_guests g = 3 <-> 120 < g <= 250)
  /\ (forall g, difficulty_from_guests g = 4 <-> 250 < g <= 400)
  /\ (forall g, difficulty_from_guests g = 5 <-> 400 < g)
  /\ (forall g, difficulty_from_guests g ∈ [2; 3; 4; 5])
  /\ (forall g1 g2, g1 <= g2 -> difficulty_from_guests g1 <= difficulty_from_guests g2)
  /\ difficulty_from_guests 120 = 2 /\ difficulty_from_guests 121 = 3
  /\ difficulty_from_guests 250 = 3 /\ difficulty_from_guests 251 = 4
  /\ difficulty_from_guests 400 = 4 /\ difficulty_from_guests 401 = 5.
Proof.
  assert (Hcases : forall g,
    (g <= 120 /\ difficulty_from_guests g = 2)
    \/ (120 < g <= 250 /\ difficulty_from_guests g = 3)
    \/ (250 < g <= 400 /\ difficulty_from_guests g = 4)
    \/ (400 < g /\ difficulty_from_guests g = 5)).
  { intros g. unfold difficulty_from_guests.
    destruct (Z.leb_spec g 120); [ lia | ].
    destruct (Z.leb_spec g 250); [ lia | ].
    destruct (Z.leb_spec g 400); lia. }
  repeat match goal with |- _ /\ _ => split end; try reflexivity;
    try (intros g; destruct (Hcases g) as [H | [H | [H | H]]]; lia).
  - intros g. destruct (Hcases g) as [[_ ->] | [[_ ->] | [[_ ->] | [_ ->]]]]; set_solver.
  - intros g1 g2 Hle.
    destruct (Hcases g1) as [H1 | [H1 | [H1 | H1]]],
             (Hcases g2) as [H2 | [H2 | [H2 | H2]]]; lia.
Qed.

(* ===================================================================== *)
(** * Shortfall counts *)
(* ===================================================================== *)

(** C2. For an event whose required counts are not negative (every event
    [build_event] makes requires at least 3 waiters and 1 bartender) and any
    roster, load counter and schedule: after [assign_event] the number of
    assigned waiter names plus [missing_waiters] is the required waiter
    count, likewise for bartenders, both missing counts are at least 0, and
    neither list of names is longer than its required count. *)
Theorem assign_event_counts (ev : Ev.t) (employees : list Emp.t)
    (assigned : load_counter) (schedule : availability) :
  0 <= Ev.waiters ev ->
  0 <= Ev.bartenders ev ->
  let ev' := (assign_event ev employees assigned schedule).1.1 in
  Z.of_nat (length (Ev.waiter_names ev')) + Ev.missing_waiters ev' = Ev.waiters ev'
  /\ Z.of_nat (length (Ev.bartender_names ev')) + Ev.missing_bartenders ev' = Ev.bartenders ev'
  /\ 0 <= Ev.missing_waiters ev'
  /\ 0 <= Ev.missing_bartenders ev'
  /\ Z.of_nat (length (Ev.waiter_names ev')) <= Ev.waiters ev'
  /\ Z.of_nat (length (Ev.bartender_names ev')) <= Ev.bartenders ev'.
Proof.
  intros Hw Hb ev'. subst ev'.
  destruct (assign_event_required ev employees assigned schedule) as [-> ->].
  rewrite assign_event_waiter_names, assign_event_bartender_names,
    assign_event_missing_waiters, assign_event_missing_bartenders, !length_map.
  pose proof (chosen_for_length "waiter" (Ev.waiters ev) ev employees assigned schedule Hw).
  pose proof (chosen_for_length "bartender" (Ev.bartenders ev) ev employees assigned schedule Hb).
  lia.
Qed.

(* ===================================================================== *)
(** * Candidate order and selection *)
(* ===================================================================== *)

Lemma pool_two role ev (x y : Emp.t) :
  Emp.role x = role -> Emp.role y = role ->
  Ev.day ev ∈ Emp.days x -> Ev.day ev ∈ Emp.days y ->
  pool role ev [x; y] = [x; y].
Proof.
  intros Hx Hy Dx Dy. unfold pool.
  rewrite !filter_cons, filter_nil, !decide_True by done.
  rewrite !filter_cons, filter_nil, !decide_True by done. done.
Qed.

(** Two candidates of one role with the same load and ranks 1 and 5, both
    free, in either roster order: the first one chosen is the rank-1
    employee at difficulty 4 or more, the rank-5 employee below. *)
Lemma chosen_for_two role need ev (senior junior : Emp.t) employees assigned schedule :
  employees = [senior; junior] \/ employees = [junior; senior] ->
  Emp.rank senior = 1 -> Emp.rank junior = 5 ->
  Emp.role senior = role -> Emp.role junior = role ->
  Ev.day ev ∈ Emp.days senior -> Ev.day ev ∈ Emp.days junior ->
  load_of assigned senior = load_of assigned junior ->
  is_free ev schedule senior -> is_free ev schedule junior ->
  1 <= need ->
  head (chosen_for role need ev employees assigned schedule)
  = Some (if 4 <=? Ev.difficulty ev then senior else junior).
Proof.
  intros Hroster Hs Hj Rs Rj Ds Dj Hload Fs Fj Hneed.
  rewrite chosen_for_take by lia.
  assert (Hsorted : candidates role ev employees assigned
                    = if 4 <=? Ev.difficulty ev then [senior; junior] else [junior; senior]).
  { unfold candidates. fold (pool role ev employees).
    unfold load_of in Hload.
    destruct Hroster as [-> | ->]; rewrite pool_two by done; simpl;
      unfold sort_key, tuple_le; destruct (4 <=? Ev.difficulty ev); simpl;
      rewrite Hload, Hs, Hj, Z.ltb_irrefl, Z.eqb_refl; reflexivity. }
  rewrite Hsorted.
  replace (Z.to_nat need) with (S (Z.to_nat (need - 1))) by lia.
  destruct (4 <=? Ev.difficulty ev);
    rewrite !filter_cons, filter_nil, !decide_True by done; reflexivity.
Qed.

(** C4. [assign_event] orders the candidates of each role by load, smaller
    first, then by rank, smaller first when the difficulty is at least 4 and
    larger first otherwise, candidates equal in both keeping their roster
    order: the sorted list is a rearrangement of the role's pool, it is
    sorted by that order, and for every load and rank the candidates having
    them come in the order they have in the pool. When the required count is
    not negative the names written on the event are those of the first
    required-count candidates of the sorted list that are free, in that
    order. With two free candidates of equal load and ranks 1 and 5, in
    either roster order, an event of difficulty 5 takes the rank-1 employee
    first and an event of difficulty 2 the rank-5 employee first. *)
Theorem assign_event_selection :
  (forall (ev : Ev.t) (employees : list Emp.t) (assigned : load_counter)
          (schedule : availability),
      let ev' := (assign_event ev employees assigned schedule).1.1 in
      let sorted role := candidates role ev employees assigned in
      (forall role,
          sorted role ≡ₚ pool role ev employees
          /\ StronglySorted (comes_before (Ev.difficulty ev) assigned) (sorted role)
          /\ forall l r,
               filter (fun e => load_of assigned e = l /\ Emp.rank e = r) (sorted role)
               = filter (fun e => load_of assigned e = l /\ Emp.rank e = r)
                   (pool role ev employees))
      /\ (0 <= Ev.waiters ev ->
          Ev.waiter_names ev'
          = map Emp.name (take (Z.to_nat (Ev.waiters ev))
                            (filter (is_free ev schedule) (sorted "waiter"%string))))
      /\ (0 <= Ev.bartenders ev ->
          Ev.bartender_names ev'
          = map Emp.name (take (Z.to_nat (Ev.bartenders ev))
                            (filter (is_free ev schedule) (sorted "bartender"%string)))))
  /\ (forall (ev : Ev.t) (senior junior : Emp.t) (employees : list Emp.t)
             (assigned : load_counter) (schedule : availability),
        employees = [senior; junior] \/ employees = [junior; senior] ->
        Emp.rank senior = 1 -> Emp.rank junior = 5 ->
        Emp.role senior = "waiter"%string -> Emp.role junior = "waiter"%string ->
        Ev.day ev ∈ Emp.days senior -> Ev.day ev ∈ Emp.days junior ->
        load_of assigned senior = load_of assigned junior ->
        is_free ev schedule senior -> is_free ev schedule junior ->
        1 <= Ev.waiters ev ->
        let names := Ev.waiter_names (assign_event ev employees assigned schedule).1.1 in
        (Ev.difficulty ev = 5 -> head names = Some (Emp.name senior))
        /\ (Ev.difficulty ev = 2 -> head names = Some (Emp.name junior))).
Proof.
  split.
  - intros ev employees assigned schedule ev' sorted. subst ev' sorted.
    split; [ | split ].
    + intros role. split; [ apply candidates_perm | ].
      split; [ apply candidates_sorted | apply candidates_stable ].
    + intros Hw. by rewrite assign_event_waiter_names, chosen_for_take.
    + intros Hb. by rewrite assign_event_bartender_names, chosen_for_take.
  - intros ev senior junior employees assigned schedule Hr Hs Hj Rs Rj Ds Dj Hl Fs Fj Hneed names.
    subst names. rewrite assign_event_waiter_names.
    pose proof (chosen_for_two "waiter" (Ev.waiters ev) ev senior junior employees assigned
                  schedule Hr Hs Hj Rs Rj Ds Dj Hl Fs Fj Hneed) as Hhead.
    destruct (chosen_for "waiter" (Ev.waiters ev) ev employees assigned schedule) as [| c cs];
      [ discriminate | ].
    simpl in *. injection Hhead as ->.
    split; intros ->; reflexivity.
Qed.

(* ===================================================================== *)
(** * The availability invariant *)
(* ===================================================================== *)

Lemma overlaps_sym (a b c d : Z) : overlaps a b c d = overlaps c d a b.
Proof. unfold overlaps. apply andb_comm. Qed.

Lemma can_assign_loop_clear (ivs : list busy) (ev : Ev.t) :
  can_assign_loop ivs ev = true ->
  forall (i : nat) (s e : Z),
    ivs !! i = Some (Ev.day ev, s, e) ->
    overlaps s e (Ev.arrival_min ev) (Ev.end_min ev) = false.
Proof.
  induction ivs as [| [[d s0] e0] rest IH]; intros Hloop i s e Hi; [ done | ].
  simpl in Hloop.
  destruct (bool_decide (d = Ev.day ev) && overlaps s0 e0 (Ev.arrival_min ev) (Ev.end_min ev))
    eqn:Hhit; [ discriminate | ].
  destruct i as [| i]; simpl in Hi.
  - injection Hi as -> -> ->. rewrite bool_decide_eq_true_2 in Hhit by done. exact Hhit.
  - by eapply IH.
Qed.

Lemma non_overlapping_snoc (ivs : list busy) (ev : Ev.t) :
  non_overlapping ivs ->
  can_assign_loop ivs ev = true ->
  non_overlapping (ivs ++ [window ev]).
Proof.
  intros Hok Hfree i j d s1 e1 s2 e2 Hij Hi Hj.
  destruct (decide (i < length ivs)%nat) as [Li | Li],
           (decide (j < length ivs)%nat) as [Lj | Lj].
  - rewrite lookup_app_l in Hi, Hj by done. by eapply Hok.
  - rewrite lookup_app_l in Hi by done.
    rewrite lookup_app_r in Hj by lia.
    apply list_lookup_singleton_Some in Hj as [_ Hj]. unfold window in Hj.
    injection Hj as <- <- <-. by eapply can_assign_loop_clear.
  - rewrite lookup_app_r in Hi by lia.
    rewrite lookup_app_l in Hj by done.
    apply list_lookup_singleton_Some in Hi as [_ Hi]. unfold window in Hi.
    injection Hi as <- <- <-. rewrite overlaps_sym. by eapply can_assign_loop_clear.
  - rewrite lookup_app_r in Hi, Hj by lia.
    apply list_lookup_singleton_Some in Hi as [Hi _].
    apply list_lookup_singleton_Some in Hj as [Hj _]. lia.
Qed.

(** What the commit loop leaves in the schedule when the chosen names are
    distinct: one more interval under each chosen name, nothing else. *)
Lemma fold_commit_schedule (ev : Ev.t) (chosen : list Emp.t) :
  forall (assigned : load_counter) (schedule : availability),
    NoDup (map Emp.name chosen) ->
    forall n : string,
      (fold_left (commit ev) chosen (assigned, schedule)).2 !! n
      = if decide (n ∈ map Emp.name chosen)
        then Some (default [] (schedule !! n) ++ [window ev])
        else schedule !! n.
Proof.
  induction chosen as [| e rest IH]; intros assigned schedule Hnd n; simpl.
  - done.
  - apply NoDup_cons in Hnd as [Hfresh Hnd].
    rewrite IH by done.
    destruct (decide (n = Emp.name e)) as [-> | Hne].
    + rewrite decide_False by done.
      rewrite decide_True by (apply elem_of_cons; by left).
      by rewrite lookup_insert_eq.
    + rewrite lookup_insert_ne by done.
      destruct (decide (n ∈ map Emp.name rest)) as [Hin | Hout].
      * rewrite decide_True by (apply elem_of_cons; by right). done.
      * rewrite decide_False by (rewrite elem_of_cons; by intros [? | ?]). done.
Qed.

(** The loop only ever takes free candidates, in candidate order. *)
Lemma choose_sublist need ev schedule cands chosen :
  exists picked,
    choose need ev schedule cands chosen = chosen ++ picked
    /\ picked `sublist_of` filter (is_free ev schedule) cands.
Proof.
  revert chosen. induction cands as [| e rest IH]; intros chosen; simpl.
  - exists []. by rewrite app_nil_r.
  - destruct (Z.of_nat (length chosen) =? need).
    + exists []. split; [ by rewrite app_nil_r | apply sublist_nil_l ].
    + rewrite filter_cons.
      destruct (decide (is_free ev schedule e)) as [Hfree | Hbusy].
      * rewrite Hfree. destruct (IH (chosen ++ [e])) as (picked & -> & Hsub).
        exists (e :: picked). split; [ by rewrite <- app_assoc | by constructor ].
      * apply not_true_is_false in Hbusy. rewrite Hbusy. apply IH.
Qed.

Lemma chosen_for_sublist role need ev employees assigned schedule :
  chosen_for role need ev employees assigned schedule
    `sublist_of` filter (is_free ev schedule) (candidates role ev employees assigned).
Proof.
  unfold chosen_for.
  destruct (choose_sublist need ev schedule (candidates role ev employees assigned) [])
    as (picked & -> & Hsub).
  done.
Qed.

Lemma chosen_for_free role need ev employees assigned schedule (e : Emp.t) :
  e ∈ chosen_for role need ev employees assigned schedule -> is_free ev schedule e.
Proof.
  intros Hin.
  eapply elem_of_sublist in Hin; [ | apply chosen_for_sublist ].
  by apply list_elem_of_filter in Hin as [Hfree _].
Qed.

Lemma chosen_for_pool role need ev employees assigned schedule :
  chosen_for role need ev employees assigned schedule ⊆+ pool role ev employees.
Proof.
  etrans; [ apply sublist_submseteq, chosen_for_sublist | ].
  etrans; [ apply sublist_submseteq, sublist_filter | ].
  by rewrite candidates_perm.
Qed.

Lemma filter_disjoint_submseteq {A} (P Q : A -> Prop)
    `{!forall x, Decision (P x)} `{!forall x, Decision (Q x)} (l : list A) :
  (forall x, P x -> Q x -> False) ->
  filter P l ++ filter Q l ⊆+ l.
Proof.
  intros Hdis. induction l as [| x l IH]; [ done | ].
  rewrite !filter_cons.
  destruct (decide (P x)) as [HP | HP], (decide (Q x)) as [HQ | HQ].
  - destruct (Hdis x HP HQ).
  - simpl. by constructor.
  - rewrite <- Permutation_middle. by constructor.
  - by apply submseteq_cons.
Qed.

Lemma pools_submseteq ev employees :
  pool "waiter" ev employees ++ pool "bartender" ev employees ⊆+ employees.
Proof.
  unfold pool.
  etrans; [ apply filter_disjoint_submseteq | apply sublist_submseteq, sublist_filter ].
  intros x Hw Hb. rewrite Hw in Hb. discriminate.
Qed.

Lemma submseteq_NoDup {A} (l k : list A) : l ⊆+ k -> NoDup k -> NoDup l.
Proof.
  intros Hsub Hk. apply submseteq_Permutation in Hsub as [k' Hperm].
  rewrite Hperm in Hk. by apply NoDup_app in Hk as [Hl _].
Qed.

(** With distinct names in the roster, nobody is chosen twice for one
    event. *)
Lemma chosen_names_NoDup ev employees assigned schedule :
  NoDup (map Emp.name employees) ->
  NoDup (map Emp.name
           (chosen_for "waiter" (Ev.waiters ev) ev employees assigned schedule
            ++ chosen_for "bartender" (Ev.bartenders ev) ev employees assigned schedule)).
Proof.
  intros Hnd. eapply submseteq_NoDup; [ | exact Hnd ].
  apply (fmap_submseteq Emp.name).
  etrans; [ apply submseteq_app; apply chosen_for_pool | apply pools_submseteq ].
Qed.

Lemma assign_event_schedule ev employees assigned schedule :
  (assign_event ev employees assigned schedule).2
  = (fold_left (commit ev)
       (chosen_for "waiter" (Ev.waiters ev) ev employees assigned schedule
        ++ chosen_for "bartender" (Ev.bartenders ev) ev employees assigned schedule)
       (assigned, schedule)).2.
Proof. unfold assign_event. by destruct (fold_left _ _ _). Qed.

(** One [assign_event] keeps the invariant. *)
Lemma assign_event_schedule_ok ev employees assigned schedule :
  NoDup (map Emp.name employees) ->
  schedule_ok schedule ->
  schedule_ok (assign_event ev employees assigned schedule).2.
Proof.
  intros Hnd Hok n ivs. rewrite assign_event_schedule.
  rewrite fold_commit_schedule by by apply chosen_names_NoDup.
  destruct (decide _) as [Hin | Hout]; [ | apply Hok ].
  intros [= <-].
  apply list_elem_of_fmap in Hin as (e & -> & Hin).
  assert (Hfree : is_free ev schedule e).
  { apply elem_of_app in Hin as [Hin | Hin]; by eapply chosen_for_free. }
  unfold is_free, can_assign in Hfree.
  apply non_overlapping_snoc; [ | done ].
  destruct (schedule !! Emp.name e) as [old |] eqn:Hold; simpl.
  - by eapply Hok.
  - intros i j d s1 e1 s2 e2 _ Hi. done.
Qed.

Lemma run_steps_schedule_ok employees (week : list Ev.t) :
  NoDup (map Emp.name employees) ->
  forall st : list Ev.t * load_counter * availability,
    schedule_ok st.2 ->
    schedule_ok (fold_left (run_step employees) week st).2.
Proof.
  intros Hnd. induction week as [| ev week IH]; intros [[done assigned] schedule] Hok; simpl.
  - done.
  - apply IH. unfold run_step.
    pose proof (assign_event_schedule_ok ev employees assigned schedule Hnd Hok) as Hstep.
    destruct (assign_event ev employees assigned schedule) as [[ev' assigned'] schedule'].
    exact Hstep.
Qed.

(** C1. A run that starts from an empty schedule and an empty load counter,
    with a roster of distinct employee names, on any list of events in
    order (those [build_event] makes among them): in the final schedule, two
    intervals recorded for one employee at different positions and on the
    same day do not overlap under the half-open test
    [a.start < b.end and b.start < a.end]. *)
Theorem run_week_non_overlapping (employees : list Emp.t) (week : list Ev.t) :
  NoDup (map Emp.name employees) ->
  forall (n : string) (ivs : list busy),
    (run_week employees week).2 !! n = Some ivs ->
    forall (i j : nat) (d : string) (s1 e1 s2 e2 : Z),
      i <> j ->
      ivs !! i = Some (d, s1, e1) ->
      ivs !! j = Some (d, s2, e2) ->
      overlaps s1 e1 s2 e2 = false /\ ~ (s1 < e2 /\ s2 < e1).
Proof.
  intros Hnd n ivs Hn i j d s1 e1 s2 e2 Hij Hi Hj.
  assert (Hok : schedule_ok (run_week employees week).2).
  { apply run_steps_schedule_ok; [ done | ]. intros m l Hm. simpl in Hm.
    by rewrite lookup_empty in Hm. }
  pose proof (Hok n ivs Hn i j d s1 e1 s2 e2 Hij Hi Hj) as Hno.
  split; [ exact Hno | ].
  unfold overlaps in Hno. apply andb_false_iff in Hno.
  rewrite !Z.ltb_ge in Hno. lia.
Qed.

(* ===================================================================== *)
(** * Clock texts *)
(* ===================================================================== *)

Ltac ascii_cases c H :=
  destruct c as [[] [] [] [] [] [] [] []]; try (vm_compute in H; discriminate H).

Lemma is_decimal_isdigit (c : ascii) : is_decimal c = true -> py_isdigit_char c = true.
Proof. unfold py_isdigit_char. intros ->. reflexivity. Qed.

Lemma isdigit_not_colon (c : ascii) : py_isdigit_char c = true -> Ascii.eqb c ":" = false.
Proof. intros H. ascii_cases c H; reflexivity. Qed.

Lemma digit_value_range (c : ascii) : is_decimal c = true -> 0 <= digit_value c <= 9.
Proof.
  unfold is_decimal, digit_value. rewrite andb_true_iff, !Z.leb_le. lia.
Qed.

(** [int] on two digit characters: the decimal value, or an error when one
    of them is a superscript digit. *)
Lemma py_int_two (a b : ascii) :
  py_isdigit_char a = true -> py_isdigit_char b = true ->
  py_int (String a (String b EmptyString))
  = if is_decimal a && is_decimal b
    then Some (10 * digit_value a + digit_value b)
    else None.
Proof.
  intros Ha Hb. ascii_cases a Ha; ascii_cases b Hb; reflexivity.
Qed.

Lemma py_split_clock (a b d e : ascii) :
  Ascii.eqb a ":" = false -> Ascii.eqb b ":" = false ->
  Ascii.eqb d ":" = false -> Ascii.eqb e ":" = false ->
  py_split ":" (String a (String b (String ":" (String d (String e EmptyString)))))
  = [String a (String b EmptyString); String d (String e EmptyString)].
Proof. intros Ha Hb Hd He. simpl. rewrite Ha, Hb, Hd, He. reflexivity. Qed.

(** A text with more than one colon among its five characters does not
    split in two. *)
Lemma py_split_clock_inv (a b d e : ascii) (hh mm : string) :
  py_split ":" (String a (String b (String ":" (String d (String e EmptyString))))) = [hh; mm] ->
  Ascii.eqb a ":" = false /\ Ascii.eqb b ":" = false
  /\ Ascii.eqb d ":" = false /\ Ascii.eqb e ":" = false.
Proof.
  simpl.
  destruct (Ascii.eqb a ":"), (Ascii.eqb b ":"), (Ascii.eqb d ":"), (Ascii.eqb e ":");
    simpl; intros H; try discriminate H; done.
Qed.

Lemma clock_text_shape (t : string) :
  clock_text t = true ->
  exists a b d e : ascii,
    t = String a (String b (String ":" (String d (String e EmptyString))))
    /\ is_decimal a = true /\ is_decimal b = true
    /\ is_decimal d = true /\ is_decimal e = true
    /\ 10 * digit_value a + digit_value b <= 23
    /\ 10 * digit_value d + digit_value e <= 59.
Proof.
  destruct t as [| a [| b [| c [| d [| e [| ? ?]]]]]]; try discriminate.
  simpl. rewrite !andb_true_iff, !Z.leb_le.
  intros [[[[[[Hc Ha] Hb] Hd] He] Hh] Hm].
  apply Ascii.eqb_eq in Hc as ->. by exists a, b, d, e.
Qed.

(** On a clock text the parser returns hour times 60 plus minute. *)
Lemma time_to_minutes_clock_text (t : string) :
  clock_text t = true ->
  time_to_minutes t = Some (clock_hour t * 60 + clock_minute t)
  /\ 0 <= clock_hour t <= 23 /\ 0 <= clock_minute t <= 59.
Proof.
  intros Ht.
  destruct (clock_text_shape t Ht) as (a & b & d & e & -> & Ha & Hb & Hd & He & Hh & Hm).
  pose proof (digit_value_range a Ha). pose proof (digit_value_range b Hb).
  pose proof (digit_value_range d Hd). pose proof (digit_value_range e He).
  split; [ | simpl; lia ].
  unfold time_to_minutes.
  rewrite py_split_clock by (apply isdigit_not_colon, is_decimal_isdigit; assumption).
  rewrite !py_int_two by (apply is_decimal_isdigit; assumption).
  rewrite Ha, Hb, Hd, He. reflexivity.
Qed.

(** The form's check accepts exactly the texts that are clock texts once
    the surrounding blanks are stripped. *)
Lemma is_time_ok_clock_text (t : string) :
  is_time_ok t = Some true <-> clock_text (py_strip t) = true.
Proof.
  unfold is_time_ok. set (u := py_strip t). clearbody u. split.
  - destruct u as [| a [| b [| c [| d [| e [| ? ?]]]]]]; try discriminate.
    simpl String.length. simpl String.get.
    destruct (bool_decide (Some c = Some ":"%char)) eqn:Hc; [ | discriminate ].
    apply bool_decide_eq_true in Hc. injection Hc as ->. simpl negb. simpl orb. cbv iota.
    destruct (py_split ":" _) as [| hh [| mm [| ? ?]]] eqn:Hsplit; try discriminate.
    destruct (py_split_clock_inv _ _ _ _ _ _ Hsplit) as (Na & Nb & Nd & Ne).
    rewrite py_split_clock in Hsplit by done. injection Hsplit as <- <-.
    destruct (py_isdigit _ && py_isdigit _) eqn:Hdig; [ | discriminate ].
    simpl in Hdig. rewrite !andb_true_iff in Hdig.
    destruct Hdig as [[Ha [Hb _]] [Hd [He _]]].
    rewrite !py_int_two by done. simpl negb. cbv iota.
    destruct (is_decimal a && is_decimal b) eqn:Hab; [ | discriminate ].
    destruct (is_decimal d && is_decimal e) eqn:Hde; [ | discriminate ].
    apply andb_true_iff in Hab as [Da Db]. apply andb_true_iff in Hde as [Dd De].
    simpl. intros [= Hrange]. rewrite !andb_true_iff, !Z.leb_le in Hrange.
    rewrite Da, Db, Dd, De. simpl.
    rewrite !andb_true_iff, !Z.leb_le. lia.
  - intros Hu.
    destruct (clock_text_shape u Hu) as (a & b & d & e & -> & Ha & Hb & Hd & He & Hh & Hm).
    pose proof (digit_value_range a Ha). pose proof (digit_value_range b Hb).
    pose proof (digit_value_range d Hd). pose proof (digit_value_range e He).
    simpl String.length. simpl String.get.
    rewrite bool_decide_eq_true_2 by done. simpl negb. simpl orb. cbv iota.
    rewrite py_split_clock by (apply isdigit_not_colon, is_decimal_isdigit; assumption).
    assert (Hdig : py_isdigit (String a (String b EmptyString))
                   && py_isdigit (String d (String e EmptyString)) = true).
    { simpl. by rewrite !is_decimal_isdigit. }
    rewrite Hdig. simpl negb. cbv iota.
    rewrite !py_int_two by (apply is_decimal_isdigit; assumption).
    rewrite Ha, Hb, Hd, He. simpl. f_equal.
    rewrite !andb_true_iff, !Z.leb_le. lia.
Qed.

(** Every minute of the day survives formatting and parsing, and its text
    is a clock text: checked on each of the 1440 values. *)
Lemma roundtrip_day :
  forallb (fun k => bool_decide (time_to_minutes (minutes_to_time k) = Some k)
                    && clock_text (minutes_to_time k))
    (map Z.of_nat (seq 0 1440)) = true.
Proof. vm_compute. reflexivity. Qed.

Lemma roundtrip_minute (k : Z) :
  0 <= k < 1440 ->
  time_to_minutes (minutes_to_time k) = Some k /\ clock_text (minutes_to_time k) = true.
Proof.
  intros Hk. pose proof roundtrip_day as Hall.
  rewrite forallb_forall in Hall.
  specialize (Hall k). rewrite andb_true_iff in Hall.
  destruct Hall as [H1 H2].
  - apply in_map_iff. exists (Z.to_nat k). split; [ lia | ]. apply in_seq. lia.
  - split; [ by apply bool_decide_eq_true in H1 | done ].
Qed.

Lemma minutes_to_time_mod (x : Z) : minutes_to_time x = minutes_to_time (x mod 1440).
Proof. unfold minutes_to_time. change (24 * 60) with 1440. by rewrite Z.mod_mod. Qed.

(** C7. For every integer [m], negative ones included, parsing the text
    [minutes_to_time] makes of [m] gives [m mod 1440]; the text is that of
    [m mod 1440], and it is always a zero-padded five-character clock
    text. *)
Theorem time_roundtrip (m : Z) :
  time_to_minutes (minutes_to_time m) = Some (m mod 1440)
  /\ minutes_to_time m = minutes_to_time (m mod 1440)
  /\ clock_text (minutes_to_time m) = true
  /\ String.length (minutes_to_time m) = 5%nat.
Proof.
  assert (Hr : 0 <= m mod 1440 < 1440) by (apply Z.mod_pos_bound; lia).
  destruct (roundtrip_minute (m mod 1440) Hr) as [Hparse Htext].
  rewrite <- minutes_to_time_mod in Hparse, Htext.
  repeat split; try done.
  - apply minutes_to_time_mod.
  - destruct (clock_text_shape _ Htext) as (a & b & d & e & -> & _). reflexivity.
Qed.

(** C6, as the code has it. [time_to_minutes] returns hour times 60 plus
    minute, a minute of the day, on every text of exactly five characters
    with a colon at index 2, digits 0 to 9 on both sides, hour at most 23
    and minute at most 59. It does no validation of its own: that is the
    form's [is_time_ok], which accepts an ASCII text exactly when the text
    without its surrounding blanks has that shape, and every ASCII text it
    accepts then parses, without those blanks, to a minute of the day; so it
    accepts the ASCII text " 07:05 ", whose stripped text parses to 425. *)
Theorem clock_text_parsing :
  (forall t, clock_text t = true ->
     time_to_minutes t = Some (clock_hour t * 60 + clock_minute t)
     /\ 0 <= clock_hour t <= 23 /\ 0 <= clock_minute t <= 59
     /\ 0 <= clock_hour t * 60 + clock_minute t < 1440)
  /\ (forall t, py_isascii t = true ->
        (is_time_ok t = Some true <-> clock_text (py_strip t) = true))
  /\ (forall t, py_isascii t = true -> is_time_ok t = Some true ->
        exists m, time_to_minutes (py_strip t) = Some m /\ 0 <= m < 1440)
  /\ (py_isascii " 07:05 " = true /\ is_time_ok " 07:05 " = Some true
      /\ time_to_minutes (py_strip " 07:05 ") = Some 425).
Proof.
  split; [ | split; [ | split ] ].
  - intros t Ht. destruct (time_to_minutes_clock_text t Ht) as (Hp & Hh & Hm).
    repeat split; try done; lia.
  - intros t _. apply is_time_ok_clock_text.
  - intros t _ Ht. apply is_time_ok_clock_text in Ht.
    destruct (time_to_minutes_clock_text _ Ht) as (Hp & Hh & Hm).
    eexists. split; [ exact Hp | lia ].
  - repeat split; reflexivity.
Qed.

(** C6 as stated fails: [time_to_minutes] parses the three-character text
    "7:5" (to 425) and the out-of-range text "24:60" (to 1500) instead of
    failing, so success is not equivalent to the text being a clock text. *)
Lemma time_to_minutes_accepts_other_texts :
  time_to_minutes "7:5" = Some 425
  /\ String.length "7:5" = 3%nat
  /\ clock_text "7:5" = false
  /\ time_to_minutes "24:60" = Some 1500
  /\ clock_text "24:60" = false
  /\ ~ (forall t, is_Some (time_to_minutes t) <-> clock_text t = true).
Proof.
  repeat split; try reflexivity.
  intros H. specialize (H "7:5"%string). destruct H as [H _].
  assert (Hs : is_Some (time_to_minutes "7:5")) by (by exists 425).
  apply H in Hs. discriminate Hs.
Qed.

(* ===================================================================== *)
(** * The event window *)
(* ===================================================================== *)

Lemma build_event_fields day hall guests start_time end_time (w b s e : Z) :
  calc_staff guests = Some (w, b) ->
  time_to_minutes start_time = Some s ->
  time_to_minutes end_time = Some e ->
  exists ev,
    build_event day hall guests start_time end_time = Some ev
    /\ Ev.day ev = day
    /\ Ev.start_min ev = s
    /\ Ev.end_min ev = (if e <=? s then e + 1440 else e)
    /\ Ev.arrival_min ev = s - 120
    /\ Ev.waiters ev = w /\ Ev.bartenders ev = b
    /\ Ev.difficulty ev = difficulty_from_guests guests.
Proof.
  intros Hstaff Hs He. unfold build_event.
  rewrite Hstaff, Hs, He. simpl. eexists. split; [ reflexivity | ]. simpl. done.
Qed.

(** Every event [build_event] makes requires at least 3 waiters and 1
    bartender. *)
Lemma build_event_required day hall guests start_time end_time (ev : Ev.t) :
  build_event day hall guests start_time end_time = Some ev ->
  3 <= Ev.waiters ev /\ 1 <= Ev.bartenders ev.
Proof.
  unfold build_event.
  destruct (calc_staff guests) as [[w b] |] eqn:Hstaff; simpl; [ | discriminate ].
  destruct (time_to_minutes start_time) as [s |]; simpl; [ | discriminate ].
  destruct (time_to_minutes end_time) as [e |]; simpl; [ | discriminate ].
  intros [= <-]. simpl.
  unfold calc_staff in Hstaff.
  destruct (py_truediv guests 20) as [q20 |]; simpl in Hstaff; [ | discriminate ].
  destruct (py_ceil q20) as [c20 |]; simpl in Hstaff; [ | discriminate ].
  destruct (py_truediv guests 60) as [q60 |]; simpl in Hstaff; [ | discriminate ].
  destruct (py_ceil q60) as [c60 |]; simpl in Hstaff; [ | discriminate ].
  injection Hstaff as <- <-. lia.
Qed.

(** C5, as the code has it. Whenever [calc_staff] returns for the guest
    count and both clock texts parse, [build_event] makes an event whose
    [end_min] is the parsed end plus 1440 when the parsed end is at most the
    parsed start and the parsed end otherwise (so equal texts give a span of
    1440 minutes), and whose [arrival_min] is the parsed start minus 120,
    unclamped: a start of "01:00" gives -60. With start "23:30" and end
    "01:00" the start is 1410, the end 1500 and the arrival 1290. *)
Theorem build_event_window :
  (forall day hall guests start_time end_time (w b s e : Z),
      calc_staff guests = Some (w, b) ->
      time_to_minutes start_time = Some s ->
      time_to_minutes end_time = Some e ->
      exists ev,
        build_event day hall guests start_time end_time = Some ev
        /\ Ev.start_min ev = s
        /\ Ev.end_min ev = (if e <=? s then e + 1440 else e)
        /\ (e <= s -> Ev.end_min ev = e + 1440)
        /\ (start_time = end_time -> Ev.end_min ev - Ev.start_min ev = 1440)
        /\ Ev.arrival_min ev = Ev.start_min ev - 120)
  /\ (forall day hall,
        exists ev,
          build_event day hall 150 "23:30" "01:00" = Some ev
          /\ Ev.start_min ev = 1410 /\ Ev.end_min ev = 1500 /\ Ev.arrival_min ev = 1290)
  /\ (forall day hall,
        exists ev,
          build_event day hall 150 "01:00" "03:00" = Some ev /\ Ev.arrival_min ev = -60).
Proof.
  split; [ | split ].
  - intros day hall guests start_time end_time w b s e Hstaff Hs He.
    destruct (build_event_fields day hall guests start_time end_time w b s e Hstaff Hs He)
      as (ev & Hev & _ & Hstart & Hend & Harr & _).
    exists ev. rewrite Hend, Hstart, Harr.
    repeat split; try done.
    + intros Hle. by rewrite (proj2 (Z.leb_le e s) Hle).
    + intros Heq. rewrite Heq, He in Hs. injection Hs as ->.
      rewrite Z.leb_refl. lia.
  - intros day hall. eexists. split; [ reflexivity | ]. done.
  - intros day hall. eexists. split; [ reflexivity | ]. done.
Qed.

(** C5 as stated fails in its example: start "23:30" and end "01:00" give
    the arrival minute 1290, not 1410 (1410 is the start minute). *)
Lemma scenario_B_arrival_is_1290 :
  (Ev.arrival_min <$> build_event "ה" "A" 150 "23:30" "01:00") = Some 1290
  /\ (Ev.start_min <$> build_event "ה" "A" 150 "23:30" "01:00") = Some 1410
  /\ (Ev.end_min <$> build_event "ה" "A" 150 "23:30" "01:00") = Some 1500
  /\ (Ev.arrival_min <$> build_event "ה" "A" 150 "23:30" "01:00") <> Some 1410.
Proof. repeat split; try reflexivity. discriminate. Qed.

(* ===================================================================== *)
(** * Records with a blank name or an unknown role *)
(* ===================================================================== *)

Lemma thursday_dinner_built : build_event "ה" "A" 150 "19:00" "01:00" = Some thursday_dinner.
Proof. reflexivity. Qed.

Lemma candidates_elem role ev employees assigned (e : Emp.t) :
  e ∈ candidates role ev employees assigned ->
  e ∈ employees /\ Emp.role e = role /\ Ev.day ev ∈ Emp.days e.
Proof.
  rewrite candidates_perm. unfold pool.
  rewrite !list_elem_of_filter. tauto.
Qed.

Lemma chosen_for_elem role need ev employees assigned schedule (e : Emp.t) :
  e ∈ chosen_for role need ev employees assigned schedule ->
  e ∈ candidates role ev employees assigned.
Proof.
  intros Hin. eapply elem_of_sublist in Hin; [ | apply chosen_for_sublist ].
  by apply list_elem_of_filter in Hin as [_ Hin].
Qed.

Lemma NoDup_fmap_eq {A B} (f : A -> B) (l : list A) (x y : A) :
  NoDup (map f l) -> x ∈ l -> y ∈ l -> f x = f y -> x = y.
Proof.
  induction l as [| z l IH]; intros Hnd Hx Hy Hf; [ by apply elem_of_nil in Hx | ].
  simpl in Hnd. apply NoDup_cons in Hnd as [Hz Hnd].
  apply elem_of_cons in Hx as [-> | Hx]; apply elem_of_cons in Hy as [-> | Hy].
  - done.
  - destruct Hz. rewrite Hf. by apply (list_elem_of_fmap_2 f).
  - destruct Hz. rewrite <- Hf. by apply (list_elem_of_fmap_2 f).
  - by apply IH.
Qed.

Lemma save_employees_to_db_omap (employees : list Raw.t) :
  save_employees_to_db employees = omap save_row employees.
Proof.
  unfold save_employees_to_db.
  assert (Hgen : forall table,
    fold_left (fun table e => match save_row e with
                              | Some r => table ++ [r]
                              | None => table
                              end) employees table
    = table ++ omap save_row employees).
  { induction employees as [| e rest IH]; intros table; simpl.
    - by rewrite app_nil_r.
    - rewrite IH. destruct (save_row e); [ by rewrite <- app_assoc | done ]. }
  apply Hgen.
Qed.

Lemma save_row_Some (e : Raw.t) (name phone role days : string) (rank : Z) :
  save_row e = Some (name, phone, role, days, rank) ->
  name = py_strip (default EmptyString (Raw.name e))
  /\ role = py_strip (default EmptyString (Raw.role e))
  /\ name <> EmptyString
  /\ (role = "waiter"%string \/ role = "bartender"%string).
Proof.
  unfold save_row.
  destruct (bool_decide (py_strip (default EmptyString (Raw.name e)) = EmptyString)) eqn:Hn;
    [ discriminate | ].
  destruct (bool_decide (py_strip (default EmptyString (Raw.role e)) = "waiter"%string)) eqn:Hw;
    destruct (bool_decide (py_strip (default EmptyString (Raw.role e)) = "bartender"%string)) eqn:Hb;
    simpl; try discriminate; intros [= <- _ <- _ _];
    apply bool_decide_eq_false in Hn;
    repeat split; try done.
  - left. by apply bool_decide_eq_true in Hw.
  - left. by apply bool_decide_eq_true in Hw.
  - right. by apply bool_decide_eq_true in Hb.
Qed.

Lemma loaded_roster_valid (raws : list Raw.t) (rows : list row) (e : Emp.t) :
  rows ≡ₚ save_employees_to_db raws ->
  e ∈ load_employees_from_db rows ->
  Emp.name e <> EmptyString
  /\ (Emp.role e = "waiter"%string \/ Emp.role e = "bartender"%string).
Proof.
  intros Hperm He. unfold load_employees_from_db in He.
  apply list_elem_of_fmap in He as (r & -> & Hr).
  rewrite Hperm, save_employees_to_db_omap in Hr.
  apply list_elem_of_omap in Hr as (raw & _ & Hsave).
  destruct r as [[[[name phone] role] days] rank].
  apply save_row_Some in Hsave as (_ & _ & Hname & Hrole). simpl. done.
Qed.

(** C9, as the code has it. [assign_event] itself excludes by role only: a
    record whose role is neither "waiter" nor "bartender" is in neither
    candidate list, and when the roster's names are distinct its name is not
    written on the event. A record with a blank name, or with such a role, is
    dropped earlier, by [save_employees_to_db], which skips it and goes on
    (the table is exactly the rows of the kept records): every employee
    loaded from the table has a non-empty name and one of the two roles, so
    an event assigned from a loaded roster never carries an empty name. *)
Theorem unfit_records_excluded :
  (forall (ev : Ev.t) (employees : list Emp.t) (assigned : load_counter)
          (schedule : availability) (e : Emp.t),
      Emp.role e <> "waiter"%string -> Emp.role e <> "bartender"%string ->
      let ev' := (assign_event ev employees assigned schedule).1.1 in
      (e ∉ candidates "waiter" ev employees assigned)
      /\ (e ∉ candidates "bartender" ev employees assigned)
      /\ (NoDup (map Emp.name employees) -> e ∈ employees ->
          (Emp.name e ∉ Ev.waiter_names ev') /\ (Emp.name e ∉ Ev.bartender_names ev')))
  /\ (forall r : Raw.t,
        py_strip (default EmptyString (Raw.name r)) = EmptyString
        \/ (py_strip (default EmptyString (Raw.role r)) <> "waiter"%string
            /\ py_strip (default EmptyString (Raw.role r)) <> "bartender"%string) ->
        save_row r = None)
  /\ (forall raws : list Raw.t, save_employees_to_db raws = omap save_row raws)
  /\ (forall (raws : list Raw.t) (rows : list row) (e : Emp.t),
        rows ≡ₚ save_employees_to_db raws ->
        e ∈ load_employees_from_db rows ->
        Emp.name e <> EmptyString
        /\ (Emp.role e = "waiter"%string \/ Emp.role e = "bartender"%string))
  /\ (forall (raws : list Raw.t) (rows : list row) (ev : Ev.t)
             (assigned : load_counter) (schedule : availability) (n : string),
        rows ≡ₚ save_employees_to_db raws ->
        let ev' := (assign_event ev (load_employees_from_db rows) assigned schedule).1.1 in
        n ∈ Ev.waiter_names ev' ++ Ev.bartender_names ev' ->
        n <> EmptyString).
Proof.
  assert (Hnames : forall role need ev employees assigned schedule n,
    n ∈ map Emp.name (chosen_for role need ev employees assigned schedule) ->
    exists e, e ∈ employees /\ Emp.name e = n /\ Emp.role e = role).
  { intros role need ev employees assigned schedule n Hn.
    apply list_elem_of_fmap in Hn as (e & -> & He).
    apply chosen_for_elem, candidates_elem in He as (He & Hr & _). by exists e. }
  split; [ | split; [ | split; [ | split ] ] ].
  - intros ev employees assigned schedule e Hw Hb ev'. subst ev'.
    split; [ by intros (_ & Hr & _)%candidates_elem | ].
    split; [ by intros (_ & Hr & _)%candidates_elem | ].
    intros Hnd He.
    rewrite assign_event_waiter_names, assign_event_bartender_names.
    split; intros (e' & He' & Hname & Hrole)%Hnames;
      rewrite (NoDup_fmap_eq Emp.name employees e' e Hnd He' He Hname) in Hrole; done.
  - intros r Hr. unfold save_row.
    destruct Hr as [-> | [Hw Hb]]; [ done | ].
    destruct (bool_decide _); [ done | ].
    by rewrite !bool_decide_eq_false_2.
  - apply save_employees_to_db_omap.
  - apply loaded_roster_valid.
  - intros raws rows ev assigned schedule n Hperm ev' Hn. subst ev'.
    rewrite assign_event_waiter_names, assign_event_bartender_names in Hn.
    apply elem_of_app in Hn as [Hn | Hn];
      apply Hnames in Hn as (e & He & <- & _);
      by apply (loaded_roster_valid raws rows e Hperm He).
Qed.

(** C9 as stated fails for the name: handed a roster with a waiter whose
    name is empty, [assign_event] keeps the record among the waiter
    candidates and writes the empty name on the event. *)
Lemma assign_event_takes_nameless_waiter :
  Emp.name nameless_waiter = EmptyString
  /\ nameless_waiter ∈ candidates "waiter" thursday_dinner [nameless_waiter] ∅
  /\ Ev.waiter_names (assign_event thursday_dinner [nameless_waiter] ∅ ∅).1.1 = [EmptyString].
Proof.
  split; [ reflexivity | ]. split; [ | reflexivity ].
  change (candidates "waiter" thursday_dinner [nameless_waiter] ∅) with [nameless_waiter].
  apply list_elem_of_here.
Qed.

(* ===================================================================== *)
(** * Rounded division of integers *)
(* ===================================================================== *)

(** ** Bit counts *)

Lemma digits2_pos_bounds (p : positive) :
  2 ^ (Zpos (digits2_pos p) - 1) <= Zpos p < 2 ^ Zpos (digits2_pos p).
Proof.
  induction p as [p IH | p IH |]; simpl digits2_pos.
  - rewrite Pos2Z.inj_succ.
    replace (Z.succ (Zpos (digits2_pos p)) - 1) with (Z.succ (Zpos (digits2_pos p) - 1)) by lia.
    rewrite !Z.pow_succ_r by lia. lia.
  - rewrite Pos2Z.inj_succ.
    replace (Z.succ (Zpos (digits2_pos p)) - 1) with (Z.succ (Zpos (digits2_pos p) - 1)) by lia.
    rewrite !Z.pow_succ_r by lia. lia.
  - simpl. lia.
Qed.

Lemma Zdigits2_bounds (m : Z) : 0 < m -> 2 ^ (Zdigits2 m - 1) <= m < 2 ^ Zdigits2 m.
Proof. destruct m as [| p | p]; try lia. intros _. apply digits2_pos_bounds. Qed.

Lemma Zdigits2_pos (m : Z) : 0 < m -> 0 < Zdigits2 m.
Proof. destruct m; simpl; lia. Qed.

Lemma pow2_lt_inv (a b : Z) : 0 <= b -> 2 ^ a < 2 ^ b -> a < b.
Proof.
  intros Hb Hlt. destruct (Z.lt_ge_cases a b) as [| Hge]; [ done | ].
  assert (2 ^ b <= 2 ^ a) by (apply Z.pow_le_mono_r; lia). lia.
Qed.

Lemma Zdigits2_unique (m k : Z) : 0 < k -> 2 ^ (k - 1) <= m < 2 ^ k -> Zdigits2 m = k.
Proof.
  intros Hk [Hlo Hhi].
  assert (Hm : 0 < m) by (pose proof (Z.pow_pos_nonneg 2 (k - 1)); lia).
  pose proof (Zdigits2_bounds m Hm) as [Dlo Dhi].
  pose proof (Zdigits2_pos m Hm) as Dpos.
  assert (Zdigits2 m - 1 < k) by (apply pow2_lt_inv; lia).
  assert (k - 1 < Zdigits2 m) by (apply pow2_lt_inv; lia).
  lia.
Qed.

(** ** Shifting right *)

Lemma shr_1_spec (m : Z) (r s : bool) :
  0 <= m ->
  shr_1 (Build_shr_record m r s) = Build_shr_record (m / 2) (Z.odd m) (r || s).
Proof.
  intros Hm. destruct m as [| [p | p |] | p]; try lia; simpl.
  - reflexivity.
  - f_equal. rewrite Pos2Z.inj_xI. apply (Z.div_unique _ _ _ 1); lia.
  - f_equal. rewrite Pos2Z.inj_xO. apply (Z.div_unique _ _ _ 0); lia.
  - reflexivity.
Qed.

Lemma iter_pos_nat {A} (f : A -> A) (p : positive) (x : A) :
  SpecFloat.iter_pos f p x = Nat.iter (Pos.to_nat p) f x.
Proof.
  revert x. induction p as [p IH | p IH |]; intros x; cbn [SpecFloat.iter_pos].
  - rewrite !IH, Pos2Nat.inj_xI.
    rewrite <- Nat.iter_succ_r, <- Nat.iter_add. f_equal. lia.
  - rewrite !IH, Pos2Nat.inj_xO, <- Nat.iter_add. f_equal. lia.
  - reflexivity.
Qed.

Lemma shr_1_m (mrs : shr_record) :
  0 <= shr_m mrs -> shr_m (shr_1 mrs) = shr_m mrs / 2.
Proof. destruct mrs as [m r s]. intros Hm. by rewrite shr_1_spec. Qed.

Lemma iter_shr_1_m (k : nat) (mrs : shr_record) :
  0 <= shr_m mrs ->
  shr_m (Nat.iter k shr_1 mrs) = shr_m mrs / 2 ^ Z.of_nat k.
Proof.
  intros Hm. induction k as [| k IH].
  - simpl. by rewrite Z.div_1_r.
  - rewrite Nat.iter_succ, shr_1_m; rewrite IH.
    + rewrite Nat2Z.inj_succ, Z.pow_succ_r by lia.
      rewrite Z.div_div by lia. f_equal. lia.
    + apply Z.div_pos; lia.
Qed.

(** The mantissa after [shr] by [n] bits. *)
Lemma shr_m_spec (mrs : shr_record) (e n : Z) :
  0 <= shr_m mrs -> 0 <= n ->
  shr_m (shr mrs e n).1 = shr_m mrs / 2 ^ n /\ (shr mrs e n).2 = e + n.
Proof.
  intros Hm Hn. unfold shr. destruct n as [| p | p]; try lia; simpl.
  - split; [ by rewrite Z.div_1_r | lia ].
  - split; [ | done ].
    rewrite iter_pos_nat, iter_shr_1_m by done. by rewrite positive_nat_Z.
Qed.

(** ** Rounding to 53 bits *)

Lemma shr_record_of_loc_m (m : Z) (l : location) : shr_m (shr_record_of_loc m l) = m.
Proof. by destruct l as [| []]. Qed.

Lemma loc_of_shr_record_of_loc (m : Z) (l : location) :
  loc_of_shr_record (shr_record_of_loc m l) = l.
Proof. by destruct l as [| []]. Qed.

Lemma round_nearest_even_range (m : Z) (l : location) :
  round_nearest_even m l = m \/ round_nearest_even m l = m + 1.
Proof.
  destruct l as [| []]; simpl; auto. destruct (Z.even m); auto.
Qed.

Lemma fexp_normal (e : Z) : -1021 <= e -> fexp prec emax e = e - 53.
Proof. unfold fexp, SpecFloat.emin, prec, emax. lia. Qed.

(** [binary_round_aux] on a mantissa [q] of at least 53 bits: drop the
    [n] bits beyond 53, round, and renormalise when the rounding reaches
    [2 ^ 53]; the exponent decides between a finite result and infinity. *)
Lemma binary_round_aux_spec (q ex : Z) (loc : location) :
  0 < q -> 53 <= Zdigits2 q -> -1074 <= ex ->
  let n := Zdigits2 q - 53 in
  let mrs := (shr (shr_record_of_loc q loc) ex n).1 in
  let m2 := round_nearest_even (q / 2 ^ n) (loc_of_shr_record mrs) in
  shr_m mrs = q / 2 ^ n
  /\ 2 ^ 52 <= q / 2 ^ n < 2 ^ 53
  /\ ((m2 < 2 ^ 53
       /\ binary_round_aux prec emax false q ex loc
          = if ex + n <=? 971 then S754_finite false (Z.to_pos m2) (ex + n)
            else S754_infinity false)
      \/ (m2 = 2 ^ 53
          /\ binary_round_aux prec emax false q ex loc
             = if ex + n + 1 <=? 971 then S754_finite false (Z.to_pos (2 ^ 52)) (ex + n + 1)
               else S754_infinity false)).
Proof.
  intros Hq Hd Hex n mrs m2.
  assert (Hn : 0 <= n) by (unfold n; lia).
  destruct (shr_m_spec (shr_record_of_loc q loc) ex n) as [Hm He];
    [ rewrite shr_record_of_loc_m; lia | done | ].
  rewrite shr_record_of_loc_m in Hm. fold mrs in Hm.
  pose proof (Zdigits2_bounds q Hq) as [Qlo Qhi].
  assert (Hpow : 2 ^ Zdigits2 q = 2 ^ 53 * 2 ^ n).
  { unfold n. rewrite <- Z.pow_add_r by lia. f_equal. lia. }
  assert (Hpow' : 2 ^ (Zdigits2 q - 1) = 2 ^ 52 * 2 ^ n).
  { unfold n. rewrite <- Z.pow_add_r by lia. f_equal. lia. }
  assert (Hpn : 0 < 2 ^ n) by (apply Z.pow_pos_nonneg; lia).
  assert (Hm1 : 2 ^ 52 <= q / 2 ^ n < 2 ^ 53).
  { split.
    - apply Z.div_le_lower_bound; lia.
    - apply Z.div_lt_upper_bound; lia. }
  split; [ done | ]. split; [ done | ].
  unfold binary_round_aux.
  assert (Hfirst : shr_fexp prec emax q ex loc = (mrs, ex + n)).
  { unfold shr_fexp. rewrite fexp_normal by lia.
    replace (Zdigits2 q + ex - 53 - ex) with n by (unfold n; lia).
    rewrite (surjective_pairing (shr _ _ _)). by rewrite He. }
  rewrite Hfirst, Hm. fold m2.
  destruct (round_nearest_even_range (q / 2 ^ n) (loc_of_shr_record mrs)) as [H2 | H2];
    fold m2 in H2.
  - left. split; [ lia | ].
    assert (Hd2 : Zdigits2 m2 = 53) by (apply Zdigits2_unique; lia).
    unfold shr_fexp. rewrite Hd2, fexp_normal by lia.
    replace (53 + (ex + n) - 53 - (ex + n)) with 0 by lia. simpl.
    destruct m2 as [| p | p]; try lia. reflexivity.
  - destruct (Z.eq_dec m2 (2 ^ 53)) as [Heq | Hne].
    + right. split; [ done | ].
      rewrite Heq. unfold shr_fexp.
      change (Zdigits2 (2 ^ 53)) with 54. rewrite fexp_normal by lia.
      replace (54 + (ex + n) - 53 - (ex + n)) with 1 by lia. reflexivity.
    + left. split; [ lia | ].
      assert (Hd2 : Zdigits2 m2 = 53) by (apply Zdigits2_unique; lia).
      unfold shr_fexp. rewrite Hd2, fexp_normal by lia.
      replace (53 + (ex + n) - 53 - (ex + n)) with 0 by lia. simpl.
      destruct m2 as [| p | p]; try lia. reflexivity.
Qed.

(** ** The quotient of two positive integers *)

Lemma div_eucl_div_mod (a b : Z) : Z.div_eucl a b = (a / b, a mod b).
Proof. unfold Z.div, Z.modulo. by destruct (Z.div_eucl a b). Qed.

(** [SFdiv] on the integers [g] and [d]: scale [g] by [2 ^ s] so that the
    integer quotient [q] has at least 53 bits, then round [q] at exponent
    [- s] with the location the remainder gives. *)
Lemma SFdiv_int (g d : positive) :
  let dg := Zdigits2 (Zpos g) in
  let dd := Zdigits2 (Zpos d) in
  let s := Z.max 0 (53 + dd - dg) in
  let q := Zpos g * 2 ^ s / Zpos d in
  let r := (Zpos g * 2 ^ s) mod Zpos d in
  dd <= 60 ->
  SFdiv prec emax (S754_finite false g 0) (S754_finite false d 0)
  = binary_round_aux prec emax false q (- s) (new_location (Zpos d) r)
  /\ 0 < q /\ 53 <= Zdigits2 q /\ (0 < s -> Zdigits2 q <= 54).
Proof.
  intros dg dd s q r Hdd.
  pose proof (Zdigits2_bounds (Zpos g) eq_refl) as [Glo Ghi]. fold dg in Glo, Ghi.
  pose proof (Zdigits2_bounds (Zpos d) eq_refl) as [Dlo Dhi]. fold dd in Dlo, Dhi.
  pose proof (Zdigits2_pos (Zpos g) eq_refl) as Hdg. fold dg in Hdg.
  pose proof (Zdigits2_pos (Zpos d) eq_refl) as Hdd0. fold dd in Hdd0.
  assert (Hs : 0 <= s) by (unfold s; lia).
  assert (Hps : 0 < 2 ^ s) by (apply Z.pow_pos_nonneg; lia).
  split.
  { unfold SFdiv, SFdiv_core_binary. fold dg dd.
    rewrite fexp_normal by lia.
    replace (Z.min (dg + 0 - (dd + 0) - 53) (0 - 0)) with (- s) by (unfold s; lia).
    replace (0 - 0 - - s) with s by lia.
    assert (Hm' : match s with
                  | Z0 => Zpos g
                  | Zpos _ => Z.shiftl (Zpos g) s
                  | Zneg _ => 0
                  end = Zpos g * 2 ^ s).
    { destruct s as [| p | p] eqn:Es; try lia.
      - by rewrite Z.shiftl_mul_pow2. }
    rewrite Hm', div_eucl_div_mod. reflexivity. }
  assert (Hq52 : 2 ^ 52 <= q).
  { apply Z.div_le_lower_bound; [ lia | ].
    assert (Zpos d * 2 ^ 52 < 2 ^ (dd + 52)).
    { rewrite Z.pow_add_r by lia. nia. }
    assert (2 ^ (dd + 52) <= 2 ^ (dg - 1 + s)) by (apply Z.pow_le_mono_r; unfold s; lia).
    assert (2 ^ (dg - 1 + s) <= Zpos g * 2 ^ s).
    { rewrite Z.pow_add_r by lia. nia. }
    lia. }
  assert (Hq : 0 < q) by (pose proof (Z.pow_pos_nonneg 2 52); lia).
  pose proof (Zdigits2_bounds q Hq) as [Qlo Qhi].
  split; [ done | ]. split.
  - assert (52 < Zdigits2 q); [ | lia ].
    apply pow2_lt_inv; [ pose proof (Zdigits2_pos q Hq); lia | lia ].
  - intros Hspos.
    assert (Hq54 : q < 2 ^ 54).
    { apply Z.div_lt_upper_bound; [ lia | ].
      assert (Zpos g * 2 ^ s < 2 ^ (dg + s)).
      { rewrite Z.pow_add_r by lia. nia. }
      assert (2 ^ (dg + s) = 2 ^ (dd - 1) * 2 ^ 54).
      { rewrite <- Z.pow_add_r by lia. f_equal. unfold s. lia. }
      nia. }
    assert (Zdigits2 q - 1 < 54); [ | lia ].
    apply pow2_lt_inv; lia.
Qed.

(** ** The ceiling of the rounded quotient *)

Lemma py_ceil_finite (m : positive) (e : Z) :
  py_ceil (S754_finite false m e)
  = Some (if 0 <=? e then Zpos m * 2 ^ e else - (- Zpos m / 2 ^ (- e))).
Proof. reflexivity. Qed.

Lemma ceil_div_bounds (m P lo hi : Z) :
  0 < P -> lo * P <= m <= hi * P -> lo <= - (- m / P) <= hi.
Proof.
  intros HP [Hlo Hhi].
  assert (- hi <= - m / P) by (apply Z.div_le_lower_bound; lia).
  assert (- m / P <= - lo) by (apply Z.div_le_upper_bound; lia).
  lia.
Qed.

Lemma ceil_div_exact (m P K : Z) :
  0 < P -> (K - 1) * P < m <= K * P -> - (- m / P) = K.
Proof.
  intros HP [Hlo Hhi].
  assert (- m / P = - K); [ | lia ].
  symmetry. apply (Z.div_unique _ _ _ (K * P - m)); lia.
Qed.

Lemma py_ceil_scaled_bounds (m : positive) (e D c : Z) :
  e + 53 = D -> 1 <= D -> 2 ^ 52 <= Zpos m <= 2 ^ 53 ->
  py_ceil (S754_finite false m e) = Some c ->
  2 ^ (D - 1) <= c <= 2 ^ D.
Proof.
  intros He HD Hm Hc. rewrite py_ceil_finite in Hc. injection Hc as <-.
  destruct (Z.leb_spec 0 e) as [Hpos | Hneg].
  - assert (H1 : 2 ^ (D - 1) = 2 ^ 52 * 2 ^ e).
    { rewrite <- Z.pow_add_r by lia. f_equal. lia. }
    assert (H2 : 2 ^ D = 2 ^ 53 * 2 ^ e).
    { rewrite <- Z.pow_add_r by lia. f_equal. lia. }
    pose proof (Z.pow_pos_nonneg 2 e). nia.
  - assert (H1 : 2 ^ (D - 1) * 2 ^ (- e) = 2 ^ 52).
    { rewrite <- Z.pow_add_r by lia. f_equal. lia. }
    assert (H2 : 2 ^ D * 2 ^ (- e) = 2 ^ 53).
    { rewrite <- Z.pow_add_r by lia. f_equal. lia. }
    apply ceil_div_bounds; [ apply Z.pow_pos_nonneg; lia | lia ].
Qed.

Lemma py_ceil_pow2 (m : positive) (e c : Z) :
  Zpos m = 2 ^ 52 -> -52 <= e ->
  py_ceil (S754_finite false m e) = Some c ->
  c = 2 ^ (52 + e).
Proof.
  intros Hm He Hc. rewrite py_ceil_finite, Hm in Hc. injection Hc as <-.
  destruct (Z.leb_spec 0 e) as [Hpos | Hneg].
  - by rewrite Z.pow_add_r by lia.
  - assert (H1 : 2 ^ (52 + e) * 2 ^ (- e) = 2 ^ 52).
    { rewrite <- Z.pow_add_r by lia. f_equal. lia. }
    assert (0 < 2 ^ (- e)) by (apply Z.pow_pos_nonneg; lia).
    apply ceil_div_exact; lia.
Qed.

(** Whatever the size of [g >= d], the ceiling of the rounded quotient
    lies between the powers of two that enclose the exact quotient. *)
Lemma ceil_truediv_range (g d : positive) (c : Z) :
  Zdigits2 (Zpos d) <= 60 -> Zpos d <= Zpos g ->
  py_ceil (SFdiv prec emax (S754_finite false g 0) (S754_finite false d 0)) = Some c ->
  exists D, 1 <= D
            /\ Zpos d * 2 ^ (D - 1) <= Zpos g < Zpos d * 2 ^ D
            /\ 2 ^ (D - 1) <= c <= 2 ^ D.
Proof.
  intros Hdd Hge Hc.
  destruct (SFdiv_int g d Hdd) as (Hdiv & Hq & Hq53 & _).
  set (s := Z.max 0 (53 + Zdigits2 (Zpos d) - Zdigits2 (Zpos g))) in *.
  set (q := Zpos g * 2 ^ s / Zpos d) in *.
  set (r := (Zpos g * 2 ^ s) mod Zpos d) in *.
  pose proof (Zdigits2_pos (Zpos g) eq_refl) as Hdg.
  pose proof (Zdigits2_pos (Zpos d) eq_refl) as Hdd0.
  assert (Hs : 0 <= s <= 113) by (unfold s; lia).
  assert (Hps : 0 < 2 ^ s) by (apply Z.pow_pos_nonneg; lia).
  pose proof (Zdigits2_bounds q Hq) as [Qlo Qhi].
  assert (Hqs : 2 ^ s <= q).
  { apply Z.div_le_lower_bound; [ lia | nia ]. }
  assert (HD : s < Zdigits2 q) by (apply pow2_lt_inv; lia).
  exists (Zdigits2 q - s).
  assert (Hmul : Zpos d * q <= Zpos g * 2 ^ s) by (apply Z.mul_div_le; lia).
  assert (Hmul' : Zpos g * 2 ^ s < Zpos d * (q + 1)).
  { pose proof (Z.mod_pos_bound (Zpos g * 2 ^ s) (Zpos d) eq_refl) as Hmod.
    pose proof (Z.div_mod (Zpos g * 2 ^ s) (Zpos d)) as Hdm. fold q in Hdm. lia. }
  assert (Hp1 : 2 ^ (Zdigits2 q - 1) = 2 ^ (Zdigits2 q - s - 1) * 2 ^ s).
  { rewrite <- Z.pow_add_r by lia. f_equal. lia. }
  assert (Hp2 : 2 ^ Zdigits2 q = 2 ^ (Zdigits2 q - s) * 2 ^ s).
  { rewrite <- Z.pow_add_r by lia. f_equal. lia. }
  split; [ lia | ]. split; [ split; nia | ].
  destruct (binary_round_aux_spec q (- s) (new_location (Zpos d) r) Hq Hq53 ltac:(lia))
    as (_ & Hm1 & Hres).
  set (n := Zdigits2 q - 53) in *.
  set (m2 := round_nearest_even _ _) in *.
  rewrite Hdiv in Hc.
  assert (Hm2lo : 2 ^ 52 <= m2).
  { destruct (round_nearest_even_range (q / 2 ^ n)
                (loc_of_shr_record (shr (shr_record_of_loc q (new_location (Zpos d) r)) (- s) n).1))
      as [H | H]; fold m2 in H; lia. }
  destruct Hres as [[Hlt Hres] | [Heq Hres]]; rewrite Hres in Hc.
  - destruct (- s + n <=? 971); [ | discriminate Hc ].
    apply (py_ceil_scaled_bounds (Z.to_pos m2) (- s + n)); try done.
    + unfold n. lia.
    + lia.
    + rewrite Z2Pos.id by lia. lia.
  - destruct (- s + n + 1 <=? 971); [ | discriminate Hc ].
    apply py_ceil_pow2 in Hc; [ | reflexivity | unfold n; lia ].
    replace (52 + (- s + n + 1)) with (Zdigits2 q - s) in Hc by (unfold n; lia).
    rewrite Hc. split; [ apply Z.pow_le_mono_r; lia | lia ].
Qed.

(** ** Exactness below the precision limit *)

(** With at most one bit dropped and an even divisor, the rounding of the
    quotient is decided by the remainder of [g * P] by [d], where [P] is the
    power of two that scales the quotient to the kept mantissa: it stays for
    a zero remainder and goes up for a remainder above half the divisor. *)
Lemma rounding_of_quotient (g d : positive) (s n : Z) :
  Z.even (Zpos d) = true -> 0 <= n <= 1 -> n <= s ->
  let q := Zpos g * 2 ^ s / Zpos d in
  let r := (Zpos g * 2 ^ s) mod Zpos d in
  let P := 2 ^ (s - n) in
  let M1 := Zpos g * P / Zpos d in
  let rho := (Zpos g * P) mod Zpos d in
  let mrs := (shr (shr_record_of_loc q (new_location (Zpos d) r)) (- s) n).1 in
  q / 2 ^ n = M1
  /\ (rho = 0 -> round_nearest_even M1 (loc_of_shr_record mrs) = M1)
  /\ (Zpos d < 2 * rho -> round_nearest_even M1 (loc_of_shr_record mrs) = M1 + 1).
Proof.
  intros Heven Hn Hns q r P M1 rho mrs.
  assert (HP : 0 < P) by (apply Z.pow_pos_nonneg; lia).
  assert (Hpn : 0 < 2 ^ n) by (apply Z.pow_pos_nonneg; lia).
  assert (Hsplit : 2 ^ s = P * 2 ^ n).
  { unfold P. rewrite <- Z.pow_add_r by lia. f_equal. lia. }
  assert (HM1 : q / 2 ^ n = M1).
  { unfold q, M1. rewrite Z.div_div by lia.
    rewrite Hsplit, Z.mul_assoc. apply Z.div_mul_cancel_r; lia. }
  split; [ exact HM1 | ].
  pose proof (Z.div_mod (Zpos g * P) (Zpos d) ltac:(lia)) as Hdm. fold M1 rho in Hdm.
  pose proof (Z.mod_pos_bound (Zpos g * P) (Zpos d) eq_refl) as Hrho. fold rho in Hrho.
  assert (Hloc : new_location (Zpos d) r
                 = if r =? 0 then loc_Exact else loc_Inexact (2 * r ?= Zpos d)).
  { unfold new_location. rewrite Heven. reflexivity. }
  assert (Hcase : n = 0 \/ n = 1) by lia.
  destruct Hcase as [-> | ->].
  - (* no bit dropped *)
    assert (Hr : r = rho).
    { unfold r, rho. rewrite Hsplit. f_equal. change (2 ^ 0) with 1. lia. }
    assert (Hmrs : loc_of_shr_record mrs = new_location (Zpos d) r).
    { unfold mrs. simpl. apply loc_of_shr_record_of_loc. }
    rewrite Hmrs, Hloc, Hr. split.
    + intros ->. reflexivity.
    + intros Hhalf. destruct (Z.eqb_spec rho 0) as [H0 | _]; [ lia | ].
      rewrite (proj2 (Z.compare_gt_iff _ _)) by lia. reflexivity.
  - (* one bit dropped *)
    change (2 ^ 1) with 2 in *.
    assert (H2 : Zpos g * 2 ^ s = 2 * (Zpos d * M1 + rho)) by (rewrite Hsplit; lia).
    assert (Hmrs : mrs = Build_shr_record (q / 2) (Z.odd q) (negb (r =? 0))).
    { unfold mrs. cbv beta iota delta [shr SpecFloat.iter_pos fst]. rewrite Hloc.
      assert (Hq0 : 0 <= q) by (apply Z.div_pos; lia).
      destruct (r =? 0); [ cbn [shr_record_of_loc]; by rewrite shr_1_spec | ].
      destruct (2 * r ?= Zpos d); cbn [shr_record_of_loc]; by rewrite shr_1_spec. }
    rewrite Hmrs. split.
    + intros H0. rewrite H0 in *.
      assert (Hq : q = 2 * M1).
      { unfold q. symmetry. apply (Z.div_unique _ _ _ 0); lia. }
      assert (Hr : r = 0).
      { unfold r. symmetry. apply (Z.mod_unique _ _ (2 * M1)); lia. }
      rewrite Hq, Hr, Z.odd_mul. reflexivity.
    + intros Hhalf.
      assert (Hq : q = 2 * M1 + 1).
      { unfold q. symmetry. apply (Z.div_unique _ _ _ (2 * rho - Zpos d)); lia. }
      assert (Hr : r = 2 * rho - Zpos d).
      { unfold r. symmetry. apply (Z.mod_unique _ _ (2 * M1 + 1)); lia. }
      rewrite Hq. replace (2 * M1 + 1) with (1 + 2 * M1) by lia.
      rewrite Z.odd_add_mul_2. simpl Z.odd.
      destruct (Z.eqb_spec r 0) as [H0 | _]; [ lia | ]. reflexivity.
Qed.

Lemma py_ceil_below_one (m : positive) (e K : Z) :
  e < 0 -> (K - 1) * 2 ^ (- e) < Zpos m <= K * 2 ^ (- e) ->
  py_ceil (S754_finite false m e) = Some K.
Proof.
  intros He Hm. rewrite py_ceil_finite.
  destruct (Z.leb_spec 0 e); [ lia | ].
  f_equal. apply ceil_div_exact; [ apply Z.pow_pos_nonneg; lia | done ].
Qed.

(** For an even divisor [d] of [dd] bits and [g < d * 2 ^ (54 - dd)] the
    ceiling of the rounded quotient is the ceiling of the exact one. *)
Lemma ceil_truediv_exact (g d : positive) :
  Z.even (Zpos d) = true ->
  3 <= Zdigits2 (Zpos d) <= 54 ->
  Zpos g < Zpos d * 2 ^ (54 - Zdigits2 (Zpos d)) ->
  exists c,
    py_ceil (SFdiv prec emax (S754_finite false g 0) (S754_finite false d 0)) = Some c
    /\ is_ceil c (Zpos g) (Zpos d).
Proof.
  intros Heven Hdd Hg.
  destruct (SFdiv_int g d ltac:(lia)) as (Hdiv & Hq & Hq53 & Hq54).
  set (dd := Zdigits2 (Zpos d)) in *.
  set (dg := Zdigits2 (Zpos g)) in *.
  set (s := Z.max 0 (53 + dd - dg)) in *.
  set (q := Zpos g * 2 ^ s / Zpos d) in *.
  set (r := (Zpos g * 2 ^ s) mod Zpos d) in *.
  pose proof (Zdigits2_bounds (Zpos g) eq_refl) as [Glo Ghi]. fold dg in Glo, Ghi.
  pose proof (Zdigits2_bounds (Zpos d) eq_refl) as [Dlo Dhi]. fold dd in Dlo, Dhi.
  pose proof (Zdigits2_pos (Zpos g) eq_refl) as Hdg. fold dg in Hdg.
  (* [g] has at most 54 bits, so the quotient is scaled up *)
  assert (Hg54 : Zpos g < 2 ^ 54).
  { assert (2 ^ dd * 2 ^ (54 - dd) = 2 ^ 54).
    { rewrite <- Z.pow_add_r by lia. f_equal. lia. }
    assert (0 < 2 ^ (54 - dd)) by (apply Z.pow_pos_nonneg; lia). nia. }
  assert (Hdg54 : dg - 1 < 54) by (apply pow2_lt_inv; lia).
  assert (Hs : s = 53 + dd - dg) by (unfold s; lia).
  assert (Hspos : 0 < s) by lia.
  specialize (Hq54 Hspos).
  assert (Hps : 0 < 2 ^ s) by (apply Z.pow_pos_nonneg; lia).
  pose proof (Zdigits2_bounds q Hq) as [Qlo Qhi].
  set (n := Zdigits2 q - 53) in *.
  assert (Hn : 0 <= n <= 1) by (unfold n; lia).
  (* the kept mantissa is fine enough: [2 * P > d] *)
  assert (Hqhi : q < 2 ^ (54 - dd + s)).
  { apply Z.div_lt_upper_bound; [ lia | ].
    rewrite Z.pow_add_r by lia. nia. }
  assert (Hns : Zdigits2 q - 1 < 54 - dd + s) by (apply pow2_lt_inv; lia).
  assert (Hsn : dd - 1 <= s - n) by (unfold n; lia).
  set (P := 2 ^ (s - n)).
  assert (HP : 0 < P) by (apply Z.pow_pos_nonneg; lia).
  assert (HPd : Zpos d < 2 * P).
  { assert (2 ^ (dd - 1) <= P) by (apply Z.pow_le_mono_r; lia).
    assert (2 ^ dd = 2 * 2 ^ (dd - 1)).
    { rewrite <- Z.pow_succ_r by lia. f_equal. lia. }
    lia. }
  destruct (rounding_of_quotient g d s n Heven Hn ltac:(lia)) as (HM1 & Hstay & Hup).
  fold q r P in HM1, Hstay, Hup.
  set (M1 := Zpos g * P / Zpos d) in *.
  set (rho := (Zpos g * P) mod Zpos d) in *.
  pose proof (Z.div_mod (Zpos g * P) (Zpos d) ltac:(lia)) as Hdm. fold M1 rho in Hdm.
  pose proof (Z.mod_pos_bound (Zpos g * P) (Zpos d) eq_refl) as Hrho. fold rho in Hrho.
  (* the exact ceiling *)
  set (K := (Zpos g - 1) / Zpos d + 1).
  assert (HK : is_ceil K (Zpos g) (Zpos d)).
  { unfold is_ceil, K.
    pose proof (Z.div_mod (Zpos g - 1) (Zpos d) ltac:(lia)).
    pose proof (Z.mod_pos_bound (Zpos g - 1) (Zpos d) eq_refl). lia. }
  destruct HK as [HK1 HK2].
  exists K. split; [ | done ].
  destruct (binary_round_aux_spec q (- s) (new_location (Zpos d) r) Hq Hq53 ltac:(lia))
    as (_ & Hm1 & Hres).
  fold n in Hm1, Hres. rewrite HM1 in Hm1, Hres.
  set (m2 := round_nearest_even M1 _) in *.
  assert (Hm2 : (K - 1) * P < m2 <= K * P).
  { destruct (round_nearest_even_range M1
                (loc_of_shr_record (shr (shr_record_of_loc q (new_location (Zpos d) r)) (- s) n).1))
      as [H | H]; fold m2 in H.
    - (* stays: the remainder is at most half the divisor *)
      assert (Hhalf : 2 * rho <= Zpos d).
      { destruct (Z.le_gt_cases (2 * rho) (Zpos d)) as [| Hgt]; [ done | ].
        specialize (Hup Hgt). lia. }
      split; nia.
    - (* goes up: the remainder is not zero *)
      assert (Hnz : rho <> 0).
      { intros H0. specialize (Hstay H0). lia. }
      split; nia. }
  assert (Hm2pos : 0 < m2).
  { destruct (round_nearest_even_range M1
                (loc_of_shr_record (shr (shr_record_of_loc q (new_location (Zpos d) r)) (- s) n).1))
      as [H | H]; fold m2 in H; lia. }
  rewrite Hdiv.
  destruct Hres as [[Hlt Hres] | [Heq Hres]]; rewrite Hres.
  - rewrite (proj2 (Z.leb_le _ _)) by lia.
    apply py_ceil_below_one; [ lia | ].
    replace (- (- s + n)) with (s - n) by lia. fold P.
    rewrite Z2Pos.id by lia. done.
  - rewrite (proj2 (Z.leb_le _ _)) by lia.
    apply py_ceil_below_one; [ lia | ].
    replace (- (- s + n + 1)) with (s - n - 1) by lia.
    replace (Zpos (Z.to_pos (2 ^ 52))) with (2 ^ 52) by reflexivity.
    assert (HP2 : P = 2 * 2 ^ (s - n - 1)).
    { unfold P. rewrite <- Z.pow_succ_r by lia. f_equal. lia. }
    assert (H53 : 2 ^ 53 = 2 * 2 ^ 52) by reflexivity.
    lia.
Qed.

(* ===================================================================== *)
(** * Required staff *)
(* ===================================================================== *)

Lemma py_truediv_ceil (g d : positive) (c : Z) :
  (py_truediv (Zpos g) (Zpos d) ≫= py_ceil) = Some c
  <-> py_ceil (SFdiv prec emax (S754_finite false g 0) (S754_finite false d 0)) = Some c.
Proof.
  assert (H : py_truediv (Zpos g) (Zpos d)
              = match SFdiv prec emax (S754_finite false g 0) (S754_finite false d 0) with
                | S754_infinity _ => None
                | S754_nan => None
                | q => Some q
                end) by reflexivity.
  rewrite H.
  destruct (SFdiv prec emax (S754_finite false g 0) (S754_finite false d 0)); reflexivity.
Qed.

Lemma calc_staff_inv (g w b : Z) :
  calc_staff g = Some (w, b) <->
  exists c20 c60,
    (py_truediv g 20 ≫= py_ceil) = Some c20
    /\ (py_truediv g 60 ≫= py_ceil) = Some c60
    /\ w = Z.max 3 c20 /\ b = Z.max 1 c60.
Proof.
  unfold calc_staff. split.
  - destruct (py_truediv g 20) as [q20 |]; simpl; [ | discriminate ].
    destruct (py_ceil q20) as [c20 |]; simpl; [ | discriminate ].
    destruct (py_truediv g 60) as [q60 |]; simpl; [ | discriminate ].
    destruct (py_ceil q60) as [c60 |]; simpl; [ | discriminate ].
    intros [= <- <-]. by exists c20, c60.
  - intros (c20 & c60 & H20 & H60 & -> & ->).
    destruct (py_truediv g 20) as [q20 |]; simpl in *; [ | discriminate ].
    rewrite H20. simpl.
    destruct (py_truediv g 60) as [q60 |]; simpl in *; [ | discriminate ].
    rewrite H60. reflexivity.
Qed.

Lemma is_ceil_unique (c g d : Z) : 0 < d -> is_ceil c g d -> c = (g + d - 1) / d.
Proof.
  unfold is_ceil. intros Hd [H1 H2].
  apply (Z.div_unique _ _ _ (g + d - 1 - d * c)); lia.
Qed.

(** Below [20 * 2 ^ 49] guests both rounded quotients have exact
    ceilings. *)
Lemma calc_staff_exact (g : Z) :
  1 <= g < 20 * 2 ^ 49 ->
  calc_staff g = Some (Z.max 3 ((g + 19) / 20), Z.max 1 ((g + 59) / 60))
  /\ is_ceil ((g + 19) / 20) g 20
  /\ is_ceil ((g + 59) / 60) g 60.
Proof.
  intros Hg. destruct g as [| p | p]; try lia.
  destruct (ceil_truediv_exact p 20 eq_refl ltac:(simpl; lia) ltac:(simpl Zdigits2; lia))
    as (c20 & H20 & C20).
  destruct (ceil_truediv_exact p 60 eq_refl ltac:(simpl; lia) ltac:(simpl Zdigits2; lia))
    as (c60 & H60 & C60).
  pose proof (is_ceil_unique c20 (Zpos p) 20 ltac:(lia) C20) as E20.
  pose proof (is_ceil_unique c60 (Zpos p) 60 ltac:(lia) C60) as E60.
  replace (Zpos p + 20 - 1) with (Zpos p + 19) in E20 by lia.
  replace (Zpos p + 60 - 1) with (Zpos p + 59) in E60 by lia.
  rewrite <- E20, <- E60. split; [ | done ].
  apply calc_staff_inv. exists c20, c60.
  by rewrite !py_truediv_ceil.
Qed.

(** Whenever both counts are returned, there are at least as many waiters
    as bartenders, whatever the size of the guest count. *)
Lemma calc_staff_order (g w b : Z) :
  1 <= g -> calc_staff g = Some (w, b) -> b <= w.
Proof.
  intros Hg Hcs.
  destruct (Z.lt_ge_cases g (20 * 2 ^ 49)) as [Hsmall | Hbig].
  - destruct (calc_staff_exact g ltac:(lia)) as (Hex & [A1 A2] & [B1 B2]).
    rewrite Hex in Hcs. injection Hcs as <- <-. lia.
  - apply calc_staff_inv in Hcs as (c20 & c60 & H20 & H60 & -> & ->).
    destruct g as [| p | p]; try lia.
    apply py_truediv_ceil in H20, H60.
    apply ceil_truediv_range in H20 as (D20 & HD20 & [G20 G20'] & [L20 U20]);
      [ | simpl; lia | lia ].
    apply ceil_truediv_range in H60 as (D60 & HD60 & [G60 G60'] & [L60 U60]);
      [ | simpl; lia | lia ].
    assert (HD : D60 <= D20 - 1).
    { destruct (Z.le_gt_cases D60 (D20 - 1)) as [| Hgt]; [ done | ].
      assert (2 ^ (D20 - 1) <= 2 ^ (D60 - 1)) by (apply Z.pow_le_mono_r; lia).
      assert (2 ^ D20 = 2 * 2 ^ (D20 - 1)).
      { rewrite <- Z.pow_succ_r by lia. f_equal. lia. }
      lia. }
    assert (2 ^ D60 <= 2 ^ (D20 - 1)) by (apply Z.pow_le_mono_r; lia).
    lia.
Qed.

(** C3, as the code has it. For every guest count from 1 up to, but not
    including, [20 * 2 ^ 49] (the form admits 1 to 3000), [calc_staff]
    returns [max(3, ceil(g / 20))] waiters and [max(1, ceil(g / 60))]
    bartenders, the two ceilings being [(g + 19) / 20] and [(g + 59) / 60];
    whenever it returns, for any guest count, the waiters are at least 3 and
    the bartenders at least 1; and 150 guests give 8 waiters and 3
    bartenders. *)
Theorem calc_staff_rule :
  (forall g, 1 <= g < 20 * 2 ^ 49 ->
     exists cw cb,
       calc_staff g = Some (Z.max 3 cw, Z.max 1 cb)
       /\ is_ceil cw g 20 /\ cw = (g + 19) / 20
       /\ is_ceil cb g 60 /\ cb = (g + 59) / 60)
  /\ (forall g w b, calc_staff g = Some (w, b) -> 3 <= w /\ 1 <= b)
  /\ (forall g, 1 <= g <= 3000 -> is_Some (calc_staff g))
  /\ calc_staff 150 = Some (8, 3).
Proof.
  split; [ | split; [ | split ] ].
  - intros g Hg. destruct (calc_staff_exact g Hg) as (Hcs & Hw & Hb).
    by exists ((g + 19) / 20), ((g + 59) / 60).
  - intros g w b (c20 & c60 & _ & _ & -> & ->)%calc_staff_inv. lia.
  - intros g Hg. destruct (calc_staff_exact g ltac:(lia)) as (-> & _). done.
  - reflexivity.
Qed.

(** C3 as stated fails for large counts: the quotient is a binary64 float,
    and for [20 * 2 ^ 49 + 1] guests it rounds down to [2 ^ 49], so
    [calc_staff] returns [2 ^ 49] waiters where the ceiling of the exact
    quotient is [2 ^ 49 + 1]. *)
Lemma calc_staff_rounds_down :
  calc_staff 11258999068426241 = Some (562949953421312, 187649984473771)
  /\ 11258999068426241 = 20 * 2 ^ 49 + 1
  /\ is_ceil 562949953421313 11258999068426241 20
  /\ Z.max 3 562949953421313 <> 562949953421312.
Proof.
  split; [ vm_compute; reflexivity | ].
  split; [ reflexivity | ].
  split; [ unfold is_ceil; lia | lia ].
Qed.

(** C10. For every positive guest count on which [calc_staff] returns, the
    waiter count is at least the bartender count; and it returns for every
    count from 1 up to [20 * 2 ^ 49], the form's 1 to 3000 among them. *)
Theorem calc_staff_waiters_ge_bartenders :
  (forall g w b, 1 <= g -> calc_staff g = Some (w, b) -> b <= w)
  /\ (forall g, 1 <= g < 20 * 2 ^ 49 -> exists w b, calc_staff g = Some (w, b) /\ b <= w).
Proof.
  split.
  - apply calc_staff_order.
  - intros g Hg. destruct (calc_staff_exact g Hg) as (Hcs & _).
    eexists _, _. split; [ exact Hcs | ]. by eapply (calc_staff_order g); [ lia | ].
Qed.

(* ===================================================================== *)
(** * The theorems at work on the default roster *)
(* ===================================================================== *)

Lemma thursday_week_built : build_week thursday_requests = Some thursday_week.
Proof. reflexivity. Qed.

(** [assign_event_counts] on the Thursday dinner and the default roster. *)
Lemma assign_event_counts_witness :
  0 <= Ev.waiters thursday_dinner
  /\ 0 <= Ev.bartenders thursday_dinner
  /\ (let ev' := (assign_event thursday_dinner build_default_employees ∅ ∅).1.1 in
      Z.of_nat (length (Ev.waiter_names ev')) + Ev.missing_waiters ev' = Ev.waiters ev'
      /\ Z.of_nat (length (Ev.bartender_names ev')) + Ev.missing_bartenders ev'
         = Ev.bartenders ev'
      /\ 0 <= Ev.missing_waiters ev'
      /\ 0 <= Ev.missing_bartenders ev'
      /\ Z.of_nat (length (Ev.waiter_names ev')) <= Ev.waiters ev'
      /\ Z.of_nat (length (Ev.bartender_names ev')) <= Ev.bartenders ev').
Proof.
  assert (Hw : 0 <= Ev.waiters thursday_dinner) by (simpl; lia).
  assert (Hb : 0 <= Ev.bartenders thursday_dinner) by (simpl; lia).
  split; [ exact Hw | ]. split; [ exact Hb | ].
  exact (assign_event_counts thursday_dinner build_default_employees ∅ ∅ Hw Hb).
Defined.

(** [run_week_non_overlapping] on the Thursday week and the default roster:
    the waiter of rank 5 works the first and the third event. *)
Lemma run_week_non_overlapping_witness :
  NoDup (map Emp.name build_default_employees)
  /\ (run_week build_default_employees thursday_week).2 !! "מיכאל"%string
     = Some [("ה", 480, 840); ("ה", 960, 1380)]%string
  /\ overlaps 480 840 960 1380 = false
  /\ ~ (480 < 1380 /\ 960 < 840).
Proof.
  assert (Hnd : NoDup (map Emp.name build_default_employees)).
  { apply (bool_decide_unpack _). vm_compute. exact I. }
  assert (Hl : (run_week build_default_employees thursday_week).2 !! "מיכאל"%string
               = Some [("ה", 480, 840); ("ה", 960, 1380)]%string).
  { vm_compute. reflexivity. }
  split; [ exact Hnd | ]. split; [ exact Hl | ].
  exact (run_week_non_overlapping build_default_employees thursday_week Hnd
           "מיכאל"%string _ Hl 0%nat 1%nat "ה"%string 480 840 960 1380
           (O_S 0) eq_refl eq_refl).
Defined.

(* ===================================================================== *)
(** * What one assignment writes *)
(* ===================================================================== *)

Lemma occurrences_cons (n m : string) (names : list string) :
  occurrences n (m :: names)
  = if decide (m = n) then S (occurrences n names) else occurrences n names.
Proof. unfold occurrences. rewrite filter_cons. by destruct (decide (m = n)). Qed.

Lemma occurrences_app (n : string) (l k : list string) :
  occurrences n (l ++ k) = (occurrences n l + occurrences n k)%nat.
Proof. unfold occurrences. by rewrite filter_app, length_app. Qed.

Lemma occurrences_zero (n : string) (names : list string) :
  n ∉ names -> occurrences n names = 0%nat.
Proof.
  intros Hn. induction names as [| m names IH]; [ done | ].
  rewrite occurrences_cons. apply not_elem_of_cons in Hn as [Hne Hn].
  rewrite decide_False by done. by apply IH.
Qed.

Lemma occurrences_pos (n : string) (names : list string) :
  n ∈ names <-> (0 < occurrences n names)%nat.
Proof.
  split.
  - intros Hin. induction names as [| m names IH]; [ by apply elem_of_nil in Hin | ].
    rewrite occurrences_cons. destruct (decide (m = n)); [ lia | ].
    apply elem_of_cons in Hin as [-> | Hin]; [ done | by apply IH ].
  - intros Hpos. destruct (decide (n ∈ names)) as [| Hout]; [ done | ].
    rewrite occurrences_zero in Hpos by done. lia.
Qed.

(** The commit loop adds, under every name, one window and one unit of load
    per occurrence of the name among the chosen. *)
Lemma fold_commit_effect (ev : Ev.t) (chosen : list Emp.t) :
  forall (assigned : load_counter) (schedule : availability) (n : string),
    default [] ((fold_left (commit ev) chosen (assigned, schedule)).2 !! n)
    = default [] (schedule !! n)
      ++ replicate (occurrences n (map Emp.name chosen)) (window ev)
    /\ default 0 ((fold_left (commit ev) chosen (assigned, schedule)).1 !! n)
       = default 0 (assigned !! n) + Z.of_nat (occurrences n (map Emp.name chosen)).
Proof.
  induction chosen as [| e rest IH]; intros assigned schedule n.
  - change (occurrences n (map Emp.name [])) with 0%nat. simpl.
    rewrite app_nil_r. split; [ done | lia ].
  - change (fold_left (commit ev) (e :: rest) (assigned, schedule))
      with (fold_left (commit ev) rest
              (<[Emp.name e := default 0 (assigned !! Emp.name e) + 1]> assigned,
               <[Emp.name e := default [] (schedule !! Emp.name e) ++ [window ev]]> schedule)).
    destruct (IH (<[Emp.name e := default 0 (assigned !! Emp.name e) + 1]> assigned)
                 (<[Emp.name e := default [] (schedule !! Emp.name e) ++ [window ev]]> schedule)
                 n) as [Hs Ha].
    rewrite Hs, Ha. cbn [map]. rewrite occurrences_cons.
    destruct (decide (Emp.name e = n)) as [<- | Hne].
    + rewrite !lookup_insert_eq. simpl default.
      split; [ by rewrite <- app_assoc | lia ].
    + by rewrite !lookup_insert_ne.
Qed.

Lemma assign_event_assigned ev employees assigned schedule :
  (assign_event ev employees assigned schedule).1.2
  = (fold_left (commit ev)
       (chosen_for "waiter" (Ev.waiters ev) ev employees assigned schedule
        ++ chosen_for "bartender" (Ev.bartenders ev) ev employees assigned schedule)
       (assigned, schedule)).1.
Proof. unfold assign_event. by destruct (fold_left _ _ _). Qed.

Lemma assign_event_names ev employees assigned schedule :
  assigned_names (assign_event ev employees assigned schedule).1.1
  = map Emp.name
      (chosen_for "waiter" (Ev.waiters ev) ev employees assigned schedule
       ++ chosen_for "bartender" (Ev.bartenders ev) ev employees assigned schedule).
Proof.
  unfold assigned_names.
  by rewrite assign_event_waiter_names, assign_event_bartender_names, map_app.
Qed.

Lemma assign_event_same_request ev employees assigned schedule :
  same_request ev (assign_event ev employees assigned schedule).1.1.
Proof. unfold assign_event. destruct (fold_left _ _ _). by repeat split. Qed.

Lemma assign_event_window ev employees assigned schedule :
  window (assign_event ev employees assigned schedule).1.1 = window ev.
Proof. unfold assign_event. by destruct (fold_left _ _ _). Qed.

(** The effect of [assign_event] on the two dictionaries, by the names it
    writes on the event. *)
Lemma assign_event_effect ev employees assigned schedule (n : string) :
  let r := assign_event ev employees assigned schedule in
  default [] (r.2 !! n)
  = default [] (schedule !! n) ++ replicate (occurrences n (assigned_names r.1.1)) (window ev)
  /\ default 0 (r.1.2 !! n)
     = default 0 (assigned !! n) + Z.of_nat (occurrences n (assigned_names r.1.1)).
Proof.
  intros r. unfold r.
  rewrite assign_event_schedule, assign_event_assigned, assign_event_names.
  apply fold_commit_effect.
Qed.

(* ===================================================================== *)
(** * What a run leaves behind *)
(* ===================================================================== *)

Lemma assign_event_staffed ev employees assigned schedule :
  staffed_from employees (assign_event ev employees assigned schedule).1.1.
Proof.
  assert (Hday : Ev.day (assign_event ev employees assigned schedule).1.1 = Ev.day ev)
    by apply assign_event_same_request.
  unfold staffed_from. rewrite Hday.
  rewrite assign_event_waiter_names, assign_event_bartender_names.
  split; intros n (e & -> & He)%list_elem_of_fmap;
    apply chosen_for_elem, candidates_elem in He as (He & Hr & Hd); by exists e.
Qed.

Lemma intervals_of_app (n : string) (l k : list Ev.t) :
  intervals_of n (l ++ k) = intervals_of n l ++ intervals_of n k.
Proof. apply flat_map_app. Qed.

Lemma shifts_of_app (n : string) (l k : list Ev.t) :
  shifts_of n (l ++ k) = shifts_of n l ++ shifts_of n k.
Proof. apply flat_map_app. Qed.

Lemma map_replicate {A B} (f : A -> B) (k : nat) (x : A) :
  map f (replicate k x) = replicate k (f x).
Proof. induction k as [| k IH]; simpl; [ done | by rewrite IH ]. Qed.

Lemma map_window_shifts_of (n : string) (events : list Ev.t) :
  map window (shifts_of n events) = intervals_of n events.
Proof.
  induction events as [| ev events IH]; [ done | ].
  unfold shifts_of, intervals_of in *. simpl.
  by rewrite map_app, map_replicate, IH.
Qed.

Lemma elem_of_shifts_of (n : string) (events : list Ev.t) (ev : Ev.t) :
  ev ∈ shifts_of n events <-> ev ∈ events /\ n ∈ assigned_names ev.
Proof.
  unfold shifts_of. rewrite list_elem_of_In, in_flat_map. split.
  - intros (ev' & Hin & Hrep). apply list_elem_of_In in Hin, Hrep.
    apply elem_of_replicate in Hrep as [-> Hpos].
    split; [ done | ]. apply occurrences_pos. lia.
  - intros [Hin Hn]. exists ev. split; [ by apply list_elem_of_In | ].
    apply list_elem_of_In, elem_of_replicate. split; [ done | ].
    apply occurrences_pos in Hn. lia.
Qed.

(** The state of a run after some events: the schedule holds what the
    events done imply, the load counts the intervals, every event done is
    staffed from the roster, and the events done are the events given with
    only the assignment fields changed. *)
Lemma run_steps_state employees (week : list Ev.t) :
  forall (done : list Ev.t) (assigned : load_counter) (schedule : availability),
    (forall n, default [] (schedule !! n) = intervals_of n done) ->
    (forall n, default 0 (assigned !! n) = Z.of_nat (length (default [] (schedule !! n)))) ->
    Forall (staffed_from employees) done ->
    let st := fold_left (run_step employees) week (done, assigned, schedule) in
    (forall n, default [] (st.2 !! n) = intervals_of n st.1.1)
    /\ (forall n, default 0 (st.1.2 !! n) = Z.of_nat (length (default [] (st.2 !! n))))
    /\ Forall (staffed_from employees) st.1.1
    /\ exists news, st.1.1 = done ++ news /\ Forall2 same_request week news.
Proof.
  induction week as [| ev week IH]; intros done assigned schedule Hs Ha Hst; cbv zeta.
  - simpl. split; [ done | ]. split; [ done | ]. split; [ done | ].
    exists []. split; [ by rewrite app_nil_r | constructor ].
  - cbn [fold_left].
    assert (Hstep : run_step employees (done, assigned, schedule) ev
                    = (done ++ [(assign_event ev employees assigned schedule).1.1],
                       (assign_event ev employees assigned schedule).1.2,
                       (assign_event ev employees assigned schedule).2)).
    { unfold run_step. by destruct (assign_event ev employees assigned schedule) as [[? ?] ?]. }
    rewrite Hstep. clear Hstep.
    pose proof (assign_event_effect ev employees assigned schedule) as Heff.
    pose proof (assign_event_staffed ev employees assigned schedule) as Hstaff.
    pose proof (assign_event_same_request ev employees assigned schedule) as Hsame.
    pose proof (assign_event_window ev employees assigned schedule) as Hwin.
    cbv zeta in Heff.
    set (ev' := (assign_event ev employees assigned schedule).1.1) in *.
    set (assigned' := (assign_event ev employees assigned schedule).1.2) in *.
    set (schedule' := (assign_event ev employees assigned schedule).2) in *.
    destruct (IH (done ++ [ev']) assigned' schedule') as (H1 & H2 & H3 & news & Hn & Hf).
    + intros n. destruct (Heff n) as [-> _]. rewrite Hs, intervals_of_app.
      f_equal. unfold intervals_of. simpl. by rewrite app_nil_r, Hwin.
    + intros n. destruct (Heff n) as [-> ->].
      rewrite Ha, length_app, length_replicate. lia.
    + apply Forall_app. split; [ done | by constructor ].
    + split; [ done | ]. split; [ done | ]. split; [ done | ].
      exists (ev' :: news). split; [ by rewrite Hn, <- app_assoc | by constructor ].
Qed.

Lemma run_week_state employees (week : list Ev.t) :
  let st := run_week employees week in
  (forall n, default [] (st.2 !! n) = intervals_of n st.1.1)
  /\ (forall n, default 0 (st.1.2 !! n) = Z.of_nat (length (default [] (st.2 !! n))))
  /\ Forall (staffed_from employees) st.1.1
  /\ Forall2 same_request week st.1.1.
Proof.
  destruct (run_steps_state employees week [] ∅ ∅) as (H1 & H2 & H3 & news & Hn & Hf).
  - intros n. by rewrite lookup_empty.
  - intros n. by rewrite !lookup_empty.
  - constructor.
  - unfold run_week. split; [ done | ]. split; [ done | ]. split; [ done | ].
    by rewrite Hn.
Qed.

Lemma intervals_of_unnamed (n : string) (events : list Ev.t) :
  (forall ev, ev ∈ events -> n ∉ assigned_names ev) -> intervals_of n events = [].
Proof.
  induction events as [| ev events IH]; intros Hn; [ done | ].
  unfold intervals_of in *. simpl.
  rewrite occurrences_zero by (apply Hn; by left). simpl.
  apply IH. intros ev' Hin. apply Hn. by right.
Qed.

Lemma staffed_from_names employees (ev : Ev.t) (n : string) :
  staffed_from employees ev -> n ∈ assigned_names ev ->
  exists e, e ∈ employees /\ Emp.name e = n /\ Ev.day ev ∈ Emp.days e
            /\ (Emp.role e = "waiter"%string \/ Emp.role e = "bartender"%string).
Proof.
  intros [Hw Hb] Hn. unfold assigned_names in Hn.
  apply elem_of_app in Hn as [Hn | Hn].
  - destruct (Hw n Hn) as (e & He & Hname & Hrole & Hday). exists e. auto.
  - destruct (Hb n Hn) as (e & He & Hname & Hrole & Hday). exists e. auto.
Qed.

(** X1. After a run from the empty state, the load counter of every name is
    the number of busy intervals recorded under that name. *)
Theorem run_week_load_counts_intervals (employees : list Emp.t) (week : list Ev.t)
    (n : string) :
  default 0 ((run_week employees week).1.2 !! n)
  = Z.of_nat (length (default [] ((run_week employees week).2 !! n))).
Proof. by destruct (run_week_state employees week) as (_ & H & _). Qed.

(** X2. Every busy interval a run records under a name is the window
    (day, arrival, end) of one of the week's events, and the name is that of
    a roster employee who is a waiter or a bartender and works on that
    event's day. *)
Theorem run_week_schedule_sound (employees : list Emp.t) (week : list Ev.t)
    (n : string) (ivs : list busy) (iv : busy) :
  (run_week employees week).2 !! n = Some ivs ->
  iv ∈ ivs ->
  exists ev e,
    ev ∈ week /\ iv = window ev
    /\ e ∈ employees /\ Emp.name e = n /\ Ev.day ev ∈ Emp.days e
    /\ (Emp.role e = "waiter"%string \/ Emp.role e = "bartender"%string).
Proof.
  intros Hn Hiv.
  destruct (run_week_state employees week) as (Hs & _ & Hst & Hsame).
  cbv zeta in Hs. specialize (Hs n). rewrite Hn in Hs. simpl in Hs. rewrite Hs in Hiv.
  unfold intervals_of in Hiv.
  apply list_elem_of_In, in_flat_map in Hiv as (ev' & Hin & Hrep).
  apply list_elem_of_In in Hin, Hrep.
  apply elem_of_replicate in Hrep as [-> Hpos].
  assert (Hname : n ∈ assigned_names ev') by (apply occurrences_pos; lia).
  rewrite Forall_forall in Hst.
  destruct (staffed_from_names employees ev' n (Hst ev' Hin) Hname)
    as (e & He & Hen & Hday & Hrole).
  apply list_elem_of_lookup in Hin as [i Hi].
  destruct (Forall2_lookup_r _ _ _ _ _ Hsame Hi) as (ev & Hev & Hreq).
  exists ev, e.
  destruct Hreq as (Hd & _ & _ & _ & _ & _ & _ & Ha & _ & Hend & _).
  split; [ by eapply list_elem_of_lookup_2 | ].
  split; [ unfold window; by rewrite Hd, Ha, Hend | ].
  rewrite <- Hd. auto.
Qed.

(** X3. A run gives back the events it was given, as many and in the same
    order, each changed at most in its two name lists and its two missing
    counts. *)
Theorem run_week_keeps_requests (employees : list Emp.t) (week : list Ev.t) :
  Forall2 same_request week (run_week employees week).1.1
  /\ length (run_week employees week).1.1 = length week.
Proof.
  destruct (run_week_state employees week) as (_ & _ & _ & Hsame).
  split; [ exact Hsame | ]. symmetry. by eapply Forall2_length.
Qed.

(** X4. [assign_event] only ever appends: under each name the schedule
    keeps its intervals and gains the event's window once per occurrence of
    the name on the event, and the load grows by as much; a name the event
    does not carry keeps its schedule entry and its load. *)
Theorem assign_event_appends (ev : Ev.t) (employees : list Emp.t)
    (assigned : load_counter) (schedule : availability) (n : string) :
  let r := assign_event ev employees assigned schedule in
  let k := occurrences n (assigned_names r.1.1) in
  default [] (r.2 !! n) = default [] (schedule !! n) ++ replicate k (window ev)
  /\ default 0 (r.1.2 !! n) = default 0 (assigned !! n) + Z.of_nat k
  /\ (n ∈ assigned_names r.1.1 <-> (0 < k)%nat)
  /\ (n ∉ assigned_names r.1.1 ->
      default [] (r.2 !! n) = default [] (schedule !! n)
      /\ default 0 (r.1.2 !! n) = default 0 (assigned !! n)).
Proof.
  intros r k.
  destruct (assign_event_effect ev employees assigned schedule n) as [Hs Ha].
  fold r k in Hs, Ha.
  split; [ done | ]. split; [ done | ]. split; [ apply occurrences_pos | ].
  intros Hout. rewrite Hs, Ha. unfold k. rewrite occurrences_zero by done.
  simpl. rewrite app_nil_r. split; [ done | lia ].
Qed.

(* ===================================================================== *)
(** * Shifts per employee *)
(* ===================================================================== *)

Lemma add_shift_lookup (ev : Ev.t) (shifts : gmap string (list Ev.t)) (m n : string) :
  add_shift ev shifts m !! n
  = if decide (m = n) then (fun l => l ++ [ev]) <$> shifts !! n else shifts !! n.
Proof.
  unfold add_shift. destruct (decide (m = n)) as [-> | Hne].
  - destruct (shifts !! n) as [l |] eqn:Hl.
    + by rewrite lookup_insert_eq.
    + by rewrite Hl.
  - destruct (shifts !! m); [ by rewrite lookup_insert_ne | done ].
Qed.

Lemma fold_add_shift (ev : Ev.t) (names : list string) :
  forall (shifts : gmap string (list Ev.t)) (n : string),
    fold_left (add_shift ev) names shifts !! n
    = (fun l => l ++ replicate (occurrences n names) ev) <$> shifts !! n.
Proof.
  induction names as [| m names IH]; intros shifts n.
  - simpl. change (occurrences n []) with 0%nat. simpl.
    destruct (shifts !! n); simpl; [ by rewrite app_nil_r | done ].
  - cbn [fold_left]. rewrite IH, add_shift_lookup, occurrences_cons.
    destruct (decide (m = n)); [ | done ].
    destruct (shifts !! n); simpl; [ by rewrite <- app_assoc | done ].
Qed.

Lemma shifts_of_event_lookup (shifts : gmap string (list Ev.t)) (ev : Ev.t) (n : string) :
  shifts_of_event shifts ev !! n
  = (fun l => l ++ replicate (occurrences n (assigned_names ev)) ev) <$> shifts !! n.
Proof.
  unfold shifts_of_event, assigned_names. rewrite !fold_add_shift, occurrences_app.
  destruct (shifts !! n); simpl; [ | done ].
  by rewrite <- app_assoc, replicate_add.
Qed.

Lemma fold_shifts_of_event (week : list Ev.t) :
  forall (shifts : gmap string (list Ev.t)) (n : string),
    fold_left shifts_of_event week shifts !! n
    = (fun l => l ++ shifts_of n week) <$> shifts !! n.
Proof.
  induction week as [| ev week IH]; intros shifts n.
  - simpl. destruct (shifts !! n); simpl; [ by rewrite app_nil_r | done ].
  - cbn [fold_left]. rewrite IH, shifts_of_event_lookup.
    destruct (shifts !! n); simpl; [ | done ].
    unfold shifts_of. simpl. by rewrite <- app_assoc.
Qed.

Lemma empty_shifts_lookup (employees : list Emp.t) :
  forall (shifts : gmap string (list Ev.t)) (n : string),
    fold_left (fun shifts e => <[Emp.name e := []]> shifts) employees shifts !! n
    = if decide (n ∈ map Emp.name employees) then Some [] else shifts !! n.
Proof.
  induction employees as [| e rest IH]; intros shifts n.
  - done.
  - cbn [fold_left map]. rewrite IH.
    destruct (decide (n ∈ map Emp.name rest)) as [Hin | Hout].
    + rewrite decide_True; [ done | by right ].
    + destruct (decide (n = Emp.name e)) as [-> | Hne].
      * rewrite lookup_insert_eq, decide_True; [ done | by left ].
      * rewrite lookup_insert_ne by done.
        rewrite decide_False; [ done | ].
        rewrite elem_of_cons. by intros [? | ?].
Qed.

Lemma build_employee_shifts_map_lookup (week : list Ev.t) (employees : list Emp.t)
    (n : string) :
  build_employee_shifts_map week employees !! n
  = if decide (n ∈ map Emp.name employees) then Some (shifts_of n week) else None.
Proof.
  unfold build_employee_shifts_map.
  rewrite fold_shifts_of_event, empty_shifts_lookup, lookup_empty.
  by destruct (decide (n ∈ map Emp.name employees)).
Qed.

(** X5. [build_employee_shifts_map] has exactly the roster's names as keys;
    under a roster name it lists, in week order, each event once per
    occurrence of the name among the event's waiter and bartender names, so
    an event is listed exactly when it carries the name, and a name carried
    by an event but absent from the roster is dropped. *)
Theorem build_employee_shifts_map_spec (week : list Ev.t) (employees : list Emp.t)
    (n : string) :
  (is_Some (build_employee_shifts_map week employees !! n) <-> n ∈ map Emp.name employees)
  /\ (n ∈ map Emp.name employees ->
      build_employee_shifts_map week employees !! n = Some (shifts_of n week))
  /\ (forall l ev,
        build_employee_shifts_map week employees !! n = Some l ->
        (ev ∈ l <-> ev ∈ week /\ n ∈ assigned_names ev))
  /\ (n ∉ map Emp.name employees -> build_employee_shifts_map week employees !! n = None).
Proof.
  rewrite build_employee_shifts_map_lookup.
  destruct (decide (n ∈ map Emp.name employees)) as [Hin | Hout].
  - split; [ split; [ done | by eexists ] | ].
    split; [ done | ]. split; [ | done ].
    intros l ev [= <-]. apply elem_of_shifts_of.
  - split; [ split; [ by intros [? ?] | done ] | ].
    split; [ done | ]. split; [ | done ].
    intros l ev [=].
Qed.

(** X6. After a run, the shifts [build_employee_shifts_map] lists for a name
    are, window by window and in the same order, the busy intervals the run
    recorded under that name, and their number is the name's load. *)
Theorem shifts_match_schedule (employees : list Emp.t) (week : list Ev.t) (n : string) :
  let st := run_week employees week in
  let shifts := default [] (build_employee_shifts_map st.1.1 employees !! n) in
  map window shifts = default [] (st.2 !! n)
  /\ Z.of_nat (length shifts) = default 0 (st.1.2 !! n).
Proof.
  intros st shifts.
  destruct (run_week_state employees week) as (Hs & Ha & Hst & _).
  fold st in Hs, Ha, Hst.
  assert (Hmap : map window shifts = default [] (st.2 !! n)).
  { unfold shifts. rewrite build_employee_shifts_map_lookup, Hs.
    destruct (decide (n ∈ map Emp.name employees)) as [Hin | Hout]; simpl.
    - apply map_window_shifts_of.
    - symmetry. apply intervals_of_unnamed. intros ev Hev Hn.
      rewrite Forall_forall in Hst.
      destruct (staffed_from_names employees ev n (Hst ev Hev) Hn) as (e & He & <- & _).
      apply Hout. by apply (list_elem_of_fmap_2 Emp.name). }
  split; [ exact Hmap | ].
  rewrite Ha, <- Hmap. by rewrite length_map.
Qed.

(* ===================================================================== *)
(** * Who is assigned, and how many are missing *)
(* ===================================================================== *)

Lemma can_assign_loop_iff (ivs : list busy) (ev : Ev.t) :
  can_assign_loop ivs ev = true <->
  forall d s e, (d, s, e) ∈ ivs -> d = Ev.day ev ->
                ~ (s < Ev.end_min ev /\ Ev.arrival_min ev < e).
Proof.
  induction ivs as [| [[d0 s0] e0] rest IH]; simpl.
  - split; [ intros _ d s e Hin; by apply elem_of_nil in Hin | done ].
  - destruct (bool_decide (d0 = Ev.day ev) && overlaps s0 e0 (Ev.arrival_min ev) (Ev.end_min ev))
      eqn:Hhit.
    + split; [ discriminate | ]. intros Hall. exfalso.
      apply andb_true_iff in Hhit as [Hd Ho]. apply bool_decide_eq_true in Hd.
      unfold overlaps in Ho. apply andb_true_iff in Ho as [H1 H2].
      apply Z.ltb_lt in H1, H2.
      apply (Hall d0 s0 e0); [ by left | done | lia ].
    + rewrite IH. split.
      * intros Hall d s e Hin Hd. apply elem_of_cons in Hin as [[= -> -> ->] | Hin];
          [ | exact (Hall d s e Hin Hd) ].
        rewrite bool_decide_eq_true_2 in Hhit by done. simpl in Hhit.
        unfold overlaps in Hhit. apply andb_false_iff in Hhit.
        rewrite !Z.ltb_ge in Hhit. lia.
      * intros Hall d s e Hin. apply (Hall d s e). by right.
Qed.

(** X7. [can_assign] answers True exactly when no interval recorded under
    the name on the event's day meets the event's window [arrival, end):
    in particular for a name without entry, and whatever is recorded on
    other days, or ends at the arrival minute, or begins at the end
    minute. *)
Theorem can_assign_spec (name : string) (ev : Ev.t) (schedule : availability) :
  (can_assign name ev schedule = true <->
   forall d s e, (d, s, e) ∈ default [] (schedule !! name) -> d = Ev.day ev ->
                 ~ (s < Ev.end_min ev /\ Ev.arrival_min ev < e))
  /\ (schedule !! name = None -> can_assign name ev schedule = true)
  /\ ((forall d s e, (d, s, e) ∈ default [] (schedule !! name) ->
         d <> Ev.day ev \/ e <= Ev.arrival_min ev \/ Ev.end_min ev <= s) ->
      can_assign name ev schedule = true).
Proof.
  unfold can_assign. split; [ apply can_assign_loop_iff | ]. split.
  - intros ->. reflexivity.
  - intros Hall. apply can_assign_loop_iff. intros d s e Hin Hd.
    destruct (Hall d s e Hin) as [H | [H | H]]; [ done | lia | lia ].
Qed.

(** X8. [assign_event] writes on an event only names of roster employees of
    the matching role who work on the event's day and whom [can_assign]
    finds free in the schedule as it was before the event; when the roster's
    names are distinct no name is written twice on one event. *)
Theorem assign_event_assigns_free_staff (ev : Ev.t) (employees : list Emp.t)
    (assigned : load_counter) (schedule : availability) :
  let ev' := (assign_event ev employees assigned schedule).1.1 in
  staffed_from employees ev'
  /\ (forall n, n ∈ assigned_names ev' -> can_assign n ev schedule = true)
  /\ (NoDup (map Emp.name employees) -> NoDup (assigned_names ev')).
Proof.
  intros ev'. unfold ev'. split; [ apply assign_event_staffed | ].
  rewrite assign_event_names. split.
  - intros n (e & -> & He)%list_elem_of_fmap.
    apply elem_of_app in He as [He | He]; by eapply chosen_for_free.
  - apply chosen_names_NoDup.
Qed.

Lemma chosen_for_count role need ev employees assigned schedule :
  0 <= need ->
  let free := filter (is_free ev schedule) (pool role ev employees) in
  length (chosen_for role need ev employees assigned schedule)
  = Nat.min (Z.to_nat need) (length free)
  /\ ((length free <= Z.to_nat need)%nat ->
      forall e, e ∈ free -> e ∈ chosen_for role need ev employees assigned schedule).
Proof.
  intros Hneed free.
  assert (Hperm : filter (is_free ev schedule) (candidates role ev employees assigned) ≡ₚ free).
  { unfold free. by rewrite candidates_perm. }
  rewrite chosen_for_take by done. split.
  - by rewrite length_take, Hperm.
  - intros Hle e He. rewrite take_ge by (by rewrite Hperm). by rewrite Hperm.
Qed.

(** X9. For an event whose required counts are not negative, the number of
    names written for a role is the smaller of the required count and the
    number of free employees in the role's pool, the missing count is what
    the free employees fall short of the required count, and when some are
    missing every free employee of the pool is on the event. *)
Theorem assign_event_shortfall (ev : Ev.t) (employees : list Emp.t)
    (assigned : load_counter) (schedule : availability) :
  0 <= Ev.waiters ev ->
  0 <= Ev.bartenders ev ->
  let ev' := (assign_event ev employees assigned schedule).1.1 in
  let free_w := filter (is_free ev schedule) (pool "waiter" ev employees) in
  let free_b := filter (is_free ev schedule) (pool "bartender" ev employees) in
  Z.of_nat (length (Ev.waiter_names ev')) = Z.min (Ev.waiters ev) (Z.of_nat (length free_w))
  /\ Z.of_nat (length (Ev.bartender_names ev'))
     = Z.min (Ev.bartenders ev) (Z.of_nat (length free_b))
  /\ Ev.missing_waiters ev' = Z.max 0 (Ev.waiters ev - Z.of_nat (length free_w))
  /\ Ev.missing_bartenders ev' = Z.max 0 (Ev.bartenders ev - Z.of_nat (length free_b))
  /\ (0 < Ev.missing_waiters ev' ->
      forall e, e ∈ free_w -> Emp.name e ∈ Ev.waiter_names ev')
  /\ (0 < Ev.missing_bartenders ev' ->
      forall e, e ∈ free_b -> Emp.name e ∈ Ev.bartender_names ev').
Proof.
  intros Hw Hb ev' free_w free_b. unfold ev'.
  rewrite assign_event_waiter_names, assign_event_bartender_names,
    assign_event_missing_waiters, assign_event_missing_bartenders, !length_map.
  destruct (chosen_for_count "waiter" (Ev.waiters ev) ev employees assigned schedule Hw)
    as [Lw Aw].
  destruct (chosen_for_count "bartender" (Ev.bartenders ev) ev employees assigned schedule Hb)
    as [Lb Ab].
  fold free_w in Lw, Aw. fold free_b in Lb, Ab. rewrite Lw, Lb.
  split; [ lia | ]. split; [ lia | ]. split; [ lia | ]. split; [ lia | ].
  split; intros Hmiss e He; apply (list_elem_of_fmap_2 Emp.name);
    [ apply Aw | apply Ab ]; (lia || done).
Qed.

(* ===================================================================== *)
(** * Clock texts and minutes of the day *)
(* ===================================================================== *)

Lemma digit_value_inj (a b : ascii) : digit_value a = digit_value b -> a = b.
Proof.
  unfold digit_value, code. intros H.
  assert (HN : N_of_ascii a = N_of_ascii b) by lia.
  rewrite <- (ascii_N_embedding a), <- (ascii_N_embedding b). by rewrite HN.
Qed.

(** Two clock texts that show the same minute of the day are equal. *)
Lemma clock_text_inj (t u : string) :
  clock_text t = true -> clock_text u = true ->
  clock_hour t * 60 + clock_minute t = clock_hour u * 60 + clock_minute u ->
  t = u.
Proof.
  intros Ht Hu.
  destruct (clock_text_shape t Ht) as (a & b & d & e & -> & Ha & Hb & Hd & He & Hh & Hm).
  destruct (clock_text_shape u Hu) as (a' & b' & d' & e' & -> & Ha' & Hb' & Hd' & He' & Hh' & Hm').
  pose proof (digit_value_range a Ha). pose proof (digit_value_range b Hb).
  pose proof (digit_value_range d Hd). pose proof (digit_value_range e He).
  pose proof (digit_value_range a' Ha'). pose proof (digit_value_range b' Hb').
  pose proof (digit_value_range d' Hd'). pose proof (digit_value_range e' He').
  simpl. intros Heq.
  rewrite (digit_value_inj a a') by lia. rewrite (digit_value_inj b b') by lia.
  rewrite (digit_value_inj d d') by lia. rewrite (digit_value_inj e e') by lia.
  reflexivity.
Qed.

Lemma minutes_to_time_clock_text (t : string) (m : Z) :
  clock_text t = true -> time_to_minutes t = Some m ->
  0 <= m < 1440 /\ minutes_to_time m = t.
Proof.
  intros Ht Hp.
  destruct (time_to_minutes_clock_text t Ht) as (Hp' & Hh & Hm).
  rewrite Hp in Hp'. injection Hp' as ->.
  assert (Hr : 0 <= clock_hour t * 60 + clock_minute t < 1440) by lia.
  split; [ exact Hr | ].
  destruct (roundtrip_minute _ Hr) as [Hparse Htext].
  destruct (time_to_minutes_clock_text _ Htext) as (Hp2 & _ & _).
  rewrite Hparse in Hp2. injection Hp2 as Hval.
  apply clock_text_inj; [ done | done | lia ].
Qed.

Lemma time_to_minutes_of_text (m : Z) :
  time_to_minutes (minutes_to_time m) = Some (m mod 1440).
Proof.
  assert (Hr : 0 <= m mod 1440 < 1440) by (apply Z.mod_pos_bound; lia).
  destruct (roundtrip_minute _ Hr) as [Hp _]. by rewrite <- minutes_to_time_mod in Hp.
Qed.

(** X10. [minutes_to_time] undoes [time_to_minutes] on every clock text, so
    the two are inverse to each other between the clock texts and the
    minutes 0..1439; two integers get the same text exactly when they differ
    by a multiple of 1440, and adding whole days changes nothing. *)
Theorem clock_text_roundtrip :
  (forall t, clock_text t = true ->
     exists m, time_to_minutes t = Some m /\ 0 <= m < 1440 /\ minutes_to_time m = t)
  /\ (forall m m', minutes_to_time m = minutes_to_time m' <-> m mod 1440 = m' mod 1440)
  /\ (forall m k, minutes_to_time (m + 1440 * k) = minutes_to_time m).
Proof.
  assert (Hsame : forall m m',
            minutes_to_time m = minutes_to_time m' <-> m mod 1440 = m' mod 1440).
  { intros m m'. split.
    - intros Heq.
      pose proof (time_to_minutes_of_text m) as Hp.
      pose proof (time_to_minutes_of_text m') as Hp'.
      rewrite Heq, Hp' in Hp. by injection Hp.
    - intros Heq. by rewrite (minutes_to_time_mod m), (minutes_to_time_mod m'), Heq. }
  split; [ | split; [ exact Hsame | ] ].
  - intros t Ht. destruct (time_to_minutes_clock_text t Ht) as (Hp & _ & _).
    eexists. split; [ exact Hp | ]. by apply minutes_to_time_clock_text.
  - intros m k. apply Hsame. rewrite Z.mul_comm. apply Z.mod_add. lia.
Qed.

(* ===================================================================== *)
(** * Events built from clock texts *)
(* ===================================================================== *)

Lemma build_event_start_time day hall guests start_time end_time (ev : Ev.t) :
  build_event day hall guests start_time end_time = Some ev ->
  Ev.start_time ev = start_time /\ Ev.end_time ev = end_time
  /\ Ev.hall ev = hall /\ Ev.guests ev = guests
  /\ Ev.arrival_time ev = minutes_to_time (Ev.arrival_min ev)
  /\ Ev.waiter_names ev = [] /\ Ev.bartender_names ev = []
  /\ Ev.missing_waiters ev = 0 /\ Ev.missing_bartenders ev = 0.
Proof.
  unfold build_event.
  destruct (calc_staff guests) as [[w b] |]; simpl; [ | discriminate ].
  destruct (time_to_minutes start_time) as [s |]; simpl; [ | discriminate ].
  destruct (time_to_minutes end_time) as [e |]; simpl; [ | discriminate ].
  intros [= <-]. simpl. done.
Qed.

(** X11. For a guest count from 1 up to 20 * 2 ^ 49 and two clock texts,
    [build_event] returns an event that starts within the day, ends after
    its start and at most 24 hours later, has its staff arrive 120 minutes
    before the start (at -120 at the earliest), shows as arrival time the
    clock text of the arrival minute taken modulo 24 hours, shows start and
    end minutes whose clock texts are the texts given, and carries no names
    yet. *)
Theorem build_event_clock_window (day hall : string) (guests : Z)
    (start_time end_time : string) :
  1 <= guests < 20 * 2 ^ 49 ->
  clock_text start_time = true ->
  clock_text end_time = true ->
  exists ev,
    build_event day hall guests start_time end_time = Some ev
    /\ 0 <= Ev.start_min ev < 1440
    /\ Ev.start_min ev < Ev.end_min ev <= Ev.start_min ev + 1440
    /\ Ev.arrival_min ev = Ev.start_min ev - 120
    /\ -120 <= Ev.arrival_min ev < Ev.end_min ev
    /\ time_to_minutes (Ev.arrival_time ev) = Some (Ev.arrival_min ev mod 1440)
    /\ minutes_to_time (Ev.start_min ev) = start_time
    /\ minutes_to_time (Ev.end_min ev) = end_time
    /\ assigned_names ev = [].
Proof.
  intros Hg Hs He.
  destruct (calc_staff_exact guests Hg) as (Hstaff & _ & _).
  destruct (time_to_minutes_clock_text _ Hs) as (Hps & Hsh & Hsm).
  destruct (time_to_minutes_clock_text _ He) as (Hpe & Heh & Hem).
  destruct (minutes_to_time_clock_text _ _ Hs Hps) as [Rs Ts].
  destruct (minutes_to_time_clock_text _ _ He Hpe) as [Re Te].
  destruct (build_event_fields day hall guests start_time end_time _ _ _ _ Hstaff Hps Hpe)
    as (ev & Hev & _ & Hstart & Hend & Harr & _).
  destruct (build_event_start_time _ _ _ _ _ _ Hev)
    as (_ & _ & _ & _ & Hat & Hwn & Hbn & _).
  exists ev. split; [ exact Hev | ].
  set (s := clock_hour start_time * 60 + clock_minute start_time) in *.
  set (e := clock_hour end_time * 60 + clock_minute end_time) in *.
  assert (Hend' : Ev.end_min ev = e \/ Ev.end_min ev = e + 1440 * 1).
  { rewrite Hend. destruct (e <=? s); [ right; lia | by left ]. }
  assert (Hwin : s < Ev.end_min ev <= s + 1440).
  { rewrite Hend. destruct (Z.leb_spec e s); lia. }
  rewrite Hstart, Harr, Hat, Harr.
  split; [ done | ]. split; [ done | ]. split; [ done | ]. split; [ lia | ].
  split; [ apply time_to_minutes_of_text | ]. split; [ done | ].
  split.
  - destruct Hend' as [-> | ->]; [ done | ].
    transitivity (minutes_to_time e); [ | exact Te ].
    rewrite (minutes_to_time_mod (e + 1440 * 1)), (minutes_to_time_mod e).
    f_equal. rewrite Z.mul_comm. apply Z.mod_add. lia.
  - unfold assigned_names. by rewrite Hwn, Hbn.
Qed.

(* ===================================================================== *)
(** * The event form *)
(* ===================================================================== *)

(** X12. The "add event" button keeps the stored list within what the form
    guarantees when the two texts typed are ASCII: with a guest count from
    the number field (1 to 3000) and a list of such requests, whenever the
    button's code returns, the list is again one of such requests; it is the
    old list with the new request, texts stripped, at its end when both
    stripped texts are clock texts, and the old list unchanged otherwise. *)
Theorem add_event_keeps_form (events events' : list request) (day hall : string)
    (guests : Z) (start_time end_time : string) :
  1 <= guests <= 3000 ->
  py_isascii start_time = true ->
  py_isascii end_time = true ->
  Forall form_request events ->
  add_event events day hall guests start_time end_time = Some events' ->
  Forall form_request events'
  /\ (clock_text (py_strip start_time) = true /\ clock_text (py_strip end_time) = true ->
      events' = events ++ [(day, hall, guests, py_strip start_time, py_strip end_time)])
  /\ (~ (clock_text (py_strip start_time) = true /\ clock_text (py_strip end_time) = true) ->
      events' = events).
Proof.
  intros Hg _ _ Hall. unfold add_event.
  pose proof (is_time_ok_clock_text start_time) as Hs.
  pose proof (is_time_ok_clock_text end_time) as He.
  destruct (is_time_ok start_time) as [[|] |]; simpl; [ | | discriminate ].
  - destruct (is_time_ok end_time) as [[|] |]; simpl; [ | | discriminate ].
    + intros [= <-].
      assert (Cs : clock_text (py_strip start_time) = true) by (by apply Hs).
      assert (Ce : clock_text (py_strip end_time) = true) by (by apply He).
      split; [ | split; [ done | intros Hn; by destruct Hn ] ].
      apply Forall_app. split; [ done | ]. apply Forall_singleton. simpl. done.
    + intros [= <-]. split; [ done | ]. split; [ | done ].
      intros [_ Ce]. apply He in Ce. discriminate Ce.
  - intros [= <-]. split; [ done | ]. split; [ | done ].
    intros [Cs _]. apply Hs in Cs. discriminate Cs.
Qed.

Lemma form_request_builds (day hall : string) (guests : Z) (start_time end_time : string) :
  form_request (day, hall, guests, start_time, end_time) ->
  exists ev,
    build_event day hall guests start_time end_time = Some ev
    /\ Ev.day ev = day /\ Ev.hall ev = hall /\ Ev.guests ev = guests
    /\ Ev.start_time ev = start_time /\ Ev.end_time ev = end_time
    /\ 0 <= Ev.start_min ev < 1440
    /\ Ev.start_min ev < Ev.end_min ev <= Ev.start_min ev + 1440
    /\ Ev.arrival_min ev = Ev.start_min ev - 120
    /\ 3 <= Ev.waiters ev <= 150
    /\ 1 <= Ev.bartenders ev <= 50.
Proof.
  intros (Hg & Hs & He).
  destruct (calc_staff_exact guests ltac:(lia)) as (Hstaff & _ & _).
  destruct (time_to_minutes_clock_text _ Hs) as (Hps & Hsh & Hsm).
  destruct (time_to_minutes_clock_text _ He) as (Hpe & Heh & Hem).
  destruct (build_event_fields day hall guests start_time end_time _ _ _ _ Hstaff Hps Hpe)
    as (ev & Hev & Hday & Hstart & Hend & Harr & Hw & Hb & _).
  destruct (build_event_start_time _ _ _ _ _ _ Hev) as (Hst & Het & Hh & Hgu & _).
  exists ev. rewrite Hstart, Hend, Harr, Hw, Hb.
  assert ((guests + 19) / 20 <= 3019 / 20) by (apply Z.div_le_mono; lia).
  assert ((guests + 59) / 60 <= 3059 / 60) by (apply Z.div_le_mono; lia).
  change (3019 / 20) with 150 in *. change (3059 / 60) with 50 in *.
  repeat match goal with |- _ /\ _ => split end; try done; try lia.
  - destruct (Z.leb_spec (clock_hour end_time * 60 + clock_minute end_time)
                (clock_hour start_time * 60 + clock_minute start_time)); lia.
  - destruct (Z.leb_spec (clock_hour end_time * 60 + clock_minute end_time)
                (clock_hour start_time * 60 + clock_minute start_time)); lia.
Qed.

(** X13. The run never fails on what the form stored: for a list of requests
    with guest counts from 1 to 3000 and clock texts, [build_event] returns
    for each, in order, an event with the request's day, hall, guests and
    texts, a start within the day, an end after it and at most 24 hours
    later, an arrival 120 minutes before the start, 3 to 150 waiters and 1
    to 50 bartenders. *)
Theorem form_requests_build (events : list request) :
  Forall form_request events ->
  exists week,
    build_week events = Some week
    /\ length week = length events
    /\ Forall2 (fun (r : request) ev =>
                  (Ev.day ev, Ev.hall ev, Ev.guests ev, Ev.start_time ev, Ev.end_time ev) = r
                  /\ 0 <= Ev.start_min ev < 1440
                  /\ Ev.start_min ev < Ev.end_min ev <= Ev.start_min ev + 1440
                  /\ Ev.arrival_min ev = Ev.start_min ev - 120
                  /\ 3 <= Ev.waiters ev <= 150
                  /\ 1 <= Ev.bartenders ev <= 50) events week.
Proof.
  induction 1 as [| r events Hr Hall IH].
  - exists []. split; [ reflexivity | ]. split; [ reflexivity | constructor ].
  - destruct IH as (week & Hweek & Hlen & Hfields).
    destruct r as [[[[day hall] guests] start_time] end_time].
    destruct (form_request_builds _ _ _ _ _ Hr)
      as (ev & Hev & Hday & Hh & Hgu & Hst & Het & H1 & H2 & H3 & H4 & H5).
    exists (ev :: week). unfold build_week in *. split; [ | split ].
    + apply mapM_Some. constructor; [ exact Hev | by apply mapM_Some ].
    + simpl. by rewrite Hlen.
    + constructor; [ | exact Hfields ].
      rewrite Hday, Hh, Hgu, Hst, Het. done.
Qed.

(** Where the embedded [is_time_ok] has no answer, on texts of characters
    0..255: stripped, the text has five characters with a colon in the
    middle and either a further colon (the split has three parts or more)
    or, with no further colon, four characters that [isdigit] accepts of
    which one is a superscript digit (which [int] refuses). *)
Lemma is_time_ok_None (t : string) :
  is_time_ok t = None <->
  exists a b d e : ascii,
    py_strip t = String a (String b (String ":" (String d (String e EmptyString))))
    /\ ((a = ":" \/ b = ":" \/ d = ":" \/ e = ":")%char
        \/ (py_isdigit_char a = true /\ py_isdigit_char b = true
            /\ py_isdigit_char d = true /\ py_isdigit_char e = true
            /\ is_decimal a && is_decimal b && is_decimal d && is_decimal e = false)).
Proof.
  unfold is_time_ok. set (u := py_strip t). clearbody u. split.
  - destruct u as [| a [| b [| c [| d [| e [| ? ?]]]]]]; try discriminate.
    simpl String.length. simpl String.get.
    destruct (bool_decide (Some c = Some ":"%char)) eqn:Hc; [ | discriminate ].
    apply bool_decide_eq_true in Hc. injection Hc as ->. simpl negb. simpl orb. cbv iota.
    intros Hnone. exists a, b, d, e. split; [ reflexivity | ].
    destruct (Ascii.eqb a ":") eqn:Ea; [ apply Ascii.eqb_eq in Ea; auto | ].
    destruct (Ascii.eqb b ":") eqn:Eb; [ apply Ascii.eqb_eq in Eb; auto | ].
    destruct (Ascii.eqb d ":") eqn:Ed; [ apply Ascii.eqb_eq in Ed; auto | ].
    destruct (Ascii.eqb e ":") eqn:Ee; [ apply Ascii.eqb_eq in Ee; auto 6 | ].
    right. rewrite py_split_clock in Hnone by done.
    destruct (py_isdigit _ && py_isdigit _) eqn:Hdig; [ | discriminate ].
    simpl in Hdig. rewrite !andb_true_iff in Hdig.
    destruct Hdig as [[Ha [Hb _]] [Hd [He _]]].
    rewrite !py_int_two in Hnone by done. simpl negb in Hnone. cbv iota in Hnone.
    repeat match goal with |- _ /\ _ => split end; try done.
    destruct (is_decimal a), (is_decimal b), (is_decimal d), (is_decimal e);
      simpl in *; done.
  - intros (a & b & d & e & -> & Hcase).
    simpl String.length. simpl String.get.
    rewrite bool_decide_eq_true_2 by done. simpl negb. simpl orb. cbv iota.
    destruct Hcase as [Hcolon | (Ha & Hb & Hd & He & Hdec)].
    + destruct (py_split ":" _) as [| hh [| mm [| ? ?]]] eqn:Hsplit; try done.
      exfalso. destruct (py_split_clock_inv _ _ _ _ _ _ Hsplit) as (Na & Nb & Nd & Ne).
      destruct Hcolon as [-> | [-> | [-> | ->]]]; discriminate.
    + rewrite py_split_clock by (by apply isdigit_not_colon).
      assert (Hdig : py_isdigit (String a (String b EmptyString))
                     && py_isdigit (String d (String e EmptyString)) = true).
      { simpl. by rewrite Ha, Hb, Hd, He. }
      rewrite Hdig. simpl negb. cbv iota. rewrite !py_int_two by done.
      destruct (is_decimal a), (is_decimal b), (is_decimal d), (is_decimal e);
        simpl in *; done.
Qed.

(* ===================================================================== *)
(** * Overlap of two intervals, staffing by size *)
(* ===================================================================== *)

(** X15. For two intervals that are not empty, [overlaps] answers True
    exactly when some minute lies in both, each taken from its first minute
    up to, not including, its last; it does not depend on the order of the
    two. *)
Theorem overlaps_common_minute (a_start a_end b_start b_end : Z) :
  a_start < a_end ->
  b_start < b_end ->
  (overlaps a_start a_end b_start b_end = true
   <-> exists x, a_start <= x < a_end /\ b_start <= x < b_end)
  /\ overlaps a_start a_end b_start b_end = overlaps b_start b_end a_start a_end.
Proof.
  intros Ha Hb. split; [ | apply overlaps_sym ].
  unfold overlaps. rewrite andb_true_iff, !Z.ltb_lt. split.
  - intros [H1 H2]. exists (Z.max a_start b_start). lia.
  - intros (x & H1 & H2). lia.
Qed.

(** X16. Below 20 * 2 ^ 49 guests, more guests never require fewer staff:
    [calc_staff] returns on both counts, and neither the waiters nor the
    bartenders decrease. *)
Theorem calc_staff_monotone (g1 g2 : Z) :
  1 <= g1 ->
  g1 <= g2 ->
  g2 < 20 * 2 ^ 49 ->
  exists w1 b1 w2 b2,
    calc_staff g1 = Some (w1, b1) /\ calc_staff g2 = Some (w2, b2)
    /\ w1 <= w2 /\ b1 <= b2.
Proof.
  intros H1 H12 H2.
  destruct (calc_staff_exact g1 ltac:(lia)) as (E1 & _ & _).
  destruct (calc_staff_exact g2 ltac:(lia)) as (E2 & _ & _).
  eexists _, _, _, _. split; [ exact E1 | ]. split; [ exact E2 | ].
  assert ((g1 + 19) / 20 <= (g2 + 19) / 20) by (apply Z.div_le_mono; lia).
  assert ((g1 + 59) / 60 <= (g2 + 59) / 60) by (apply Z.div_le_mono; lia).
  lia.
Qed.

(* ===================================================================== *)
(** * Storing and loading the roster *)
(* ===================================================================== *)

Lemma lstrip_idem (p : ascii -> bool) (s : string) : lstrip p (lstrip p s) = lstrip p s.
Proof.
  induction s as [| c r IH]; [ done | ]. simpl.
  destruct (p c) eqn:Hc; [ exact IH | ]. simpl. by rewrite Hc.
Qed.

Lemma rstrip_idem (p : ascii -> bool) (s : string) : rstrip p (rstrip p s) = rstrip p s.
Proof.
  induction s as [| c r IH]; [ done | ]. simpl.
  destruct (rstrip p r) as [| c' r'] eqn:Hr.
  - destruct (p c) eqn:Hc; [ done | ]. simpl. by rewrite Hc.
  - change (rstrip p (String c (String c' r')))
      with (match rstrip p (String c' r') with
            | EmptyString => if p c then EmptyString else String c EmptyString
            | r'' => String c r''
            end).
    by rewrite IH.
Qed.

Lemma lstrip_rstrip (p : ascii -> bool) (s : string) :
  lstrip p (rstrip p s) = rstrip p (lstrip p s).
Proof.
  induction s as [| c r IH]; [ done | ].
  cbn [lstrip rstrip]. destruct (p c) eqn:Hc.
  - rewrite <- IH. destruct (rstrip p r) as [| c' r']; [ done | ].
    cbn [lstrip]. by rewrite Hc.
  - cbn [rstrip]. destruct (rstrip p r) as [| c' r']; cbn [lstrip]; by rewrite Hc.
Qed.

Lemma py_strip_idem (s : string) : py_strip (py_strip s) = py_strip s.
Proof.
  unfold py_strip. by rewrite lstrip_rstrip, lstrip_idem, rstrip_idem.
Qed.

Lemma py_strip_rstrip (s : string) : py_strip (rstrip py_isspace s) = py_strip s.
Proof. unfold py_strip. by rewrite lstrip_rstrip, rstrip_idem. Qed.

Lemma py_strip_space (c : ascii) (s : string) :
  py_isspace c = true -> py_strip (String c s) = py_strip s.
Proof. intros Hc. unfold py_strip. simpl. by rewrite Hc. Qed.

Lemma py_split_cons (sep : ascii) (s : string) : exists h t, py_split sep s = h :: t.
Proof.
  induction s as [| c r (h & t & IH)]; [ by eexists _, _ | ].
  simpl. destruct (Ascii.eqb c sep); [ by eexists _, _ | ].
  rewrite IH. by eexists _, _.
Qed.

Lemma py_split_last (sep : ascii) (s : string) : exists l x, py_split sep s = l ++ [x].
Proof.
  destruct (py_split_cons sep s) as (h & t & ->).
  destruct (exists_last (l := h :: t) ltac:(done)) as (l & x & ->). by exists l, x.
Qed.

Lemma py_split_blank (sep : ascii) (s : string) : py_split sep s = [EmptyString] -> s = EmptyString.
Proof.
  destruct s as [| c r]; [ done | ]. simpl.
  destruct (Ascii.eqb c sep).
  - destruct (py_split_cons sep r) as (h & t & ->). discriminate.
  - destruct (py_split_cons sep r) as (h & t & ->). discriminate.
Qed.

Lemma py_split_app (sep : ascii) (a b : string) :
  py_split sep (a +:+ String sep b) = py_split sep a ++ py_split sep b.
Proof.
  induction a as [| c r IH]; simpl.
  - by rewrite Ascii.eqb_refl.
  - rewrite IH. destruct (Ascii.eqb c sep); [ done | ].
    by destruct (py_split_cons sep r) as (h & t & ->).
Qed.

Lemma py_split_join (x : string) (r : list string) :
  py_split "," (py_join "," (x :: r)) = flat_map (py_split ",") (x :: r).
Proof.
  unfold py_join. revert x. induction r as [| y r IH]; intros x; simpl.
  - by rewrite app_nil_r.
  - rewrite IH. cbn [flat_map].
    change (x +:+ "," +:+ y) with (x +:+ String "," y).
    rewrite py_split_app. by rewrite <- app_assoc.
Qed.

(** A part without separator splits into itself. *)
Lemma py_split_whole (sep : ascii) (s : string) :
  string_forallb (fun c => negb (Ascii.eqb c sep)) s = true -> py_split sep s = [s].
Proof.
  induction s as [| c r IH]; [ done | ]. simpl.
  intros [Hc Hr]%andb_true_iff. rewrite (IH Hr).
  by destruct (Ascii.eqb c sep).
Qed.

(** Blanks at the front of a text only touch the first part of its split,
    blanks at its end only the last one. *)
Lemma py_split_lstrip (s : string) :
  map py_strip (py_split "," (lstrip py_isspace s)) = map py_strip (py_split "," s).
Proof.
  induction s as [| c r IH]; [ done | ].
  cbn [lstrip]. destruct (py_isspace c) eqn:Hc; [ | done ].
  rewrite IH. cbn [py_split].
  assert (Hsep : Ascii.eqb c "," = false).
  { destruct (Ascii.eqb c ",") eqn:E; [ | done ].
    apply Ascii.eqb_eq in E as ->. discriminate Hc. }
  rewrite Hsep. destruct (py_split_cons "," r) as (h & t & ->).
  simpl. by rewrite py_strip_space.
Qed.

Lemma py_split_String (sep c : ascii) (r : string) :
  py_split sep (String c r)
  = if Ascii.eqb c sep then EmptyString :: py_split sep r
    else match py_split sep r with
         | h :: t => String c h :: t
         | [] => [String c EmptyString]
         end.
Proof. reflexivity. Qed.

Lemma rstrip_String (p : ascii -> bool) (c : ascii) (r : string) :
  rstrip p (String c r)
  = match rstrip p r with
    | EmptyString => if p c then EmptyString else String c EmptyString
    | r' => String c r'
    end.
Proof. reflexivity. Qed.

Lemma py_split_rstrip (s : string) :
  exists l x,
    py_split "," s = l ++ [x]
    /\ py_split "," (rstrip py_isspace s) = l ++ [rstrip py_isspace x].
Proof.
  induction s as [| c r (l & x & Hs & Hr)]; [ by exists [], EmptyString | ].
  rewrite py_split_String, rstrip_String, Hs.
  destruct (Ascii.eqb c ",") eqn:Hc.
  - apply Ascii.eqb_eq in Hc as ->. exists (EmptyString :: l), x.
    split; [ done | ].
    destruct (rstrip py_isspace r) as [| c' r'] eqn:E.
    + change (py_isspace ",") with false. cbv iota.
      destruct l as [| ? [| ? ?]]; [ | done | done ].
      simpl in Hr. injection Hr as <-. done.
    + by rewrite py_split_String, Ascii.eqb_refl, Hr.
  - destruct l as [| h l].
    + exists [], (String c x). split; [ done | ].
      rewrite (rstrip_String _ c x). simpl in Hr.
      destruct (rstrip py_isspace r) as [| c' r'] eqn:E.
      * simpl in Hr. injection Hr as <-.
        destruct (py_isspace c); [ done | ]. simpl. by rewrite Hc.
      * rewrite py_split_String, Hc, Hr.
        destruct (rstrip py_isspace x) as [| ? ?] eqn:Ex; [ | done ].
        apply py_split_blank in Hr. discriminate Hr.
    + exists (String c h :: l), x. split; [ done | ].
      destruct (rstrip py_isspace r) as [| c' r'] eqn:E.
      * simpl in Hr. destruct l; discriminate Hr.
      * by rewrite py_split_String, Hc, Hr.
Qed.

Lemma py_split_strip (s : string) :
  map py_strip (py_split "," (py_strip s)) = map py_strip (py_split "," s).
Proof.
  unfold py_strip at 2. rewrite <- (py_split_lstrip s).
  destruct (py_split_rstrip (lstrip py_isspace s)) as (l & x & -> & ->).
  by rewrite !map_app, !map_cons, py_strip_rstrip.
Qed.

Lemma strip_nonblank_filter (ds : list string) :
  strip_nonblank ds = filter (fun d => d ≠ EmptyString) (map py_strip ds).
Proof.
  unfold strip_nonblank. induction ds as [| d ds IH]; [ done | ].
  rewrite map_cons, !filter_cons.
  destruct (decide (py_strip d ≠ EmptyString)); simpl; by rewrite IH.
Qed.

Lemma strip_nonblank_app (l k : list string) :
  strip_nonblank (l ++ k) = strip_nonblank l ++ strip_nonblank k.
Proof. unfold strip_nonblank. by rewrite filter_app, map_app. Qed.


Lemma strip_nonblank_split_strip (ds : list string) :
  strip_nonblank (flat_map (py_split ",") (strip_nonblank ds))
  = strip_nonblank (flat_map (py_split ",") ds).
Proof.
  induction ds as [| d ds IH]; [ done | ].
  cbn [flat_map]. rewrite strip_nonblank_app, <- IH.
  assert (Hd : strip_nonblank (py_split "," d) = strip_nonblank (py_split "," (py_strip d))).
  { by rewrite !strip_nonblank_filter, py_split_strip. }
  rewrite Hd. unfold strip_nonblank at 2. rewrite filter_cons.
  destruct (decide (py_strip d ≠ EmptyString)) as [Hne | Heq].
  - rewrite map_cons. cbn [flat_map]. by rewrite strip_nonblank_app.
  - apply dec_stable in Heq. rewrite Heq. done.
Qed.

Lemma load_days_of_saved (ds : list string) :
  strip_nonblank (py_split "," (py_join "," (strip_nonblank ds)))
  = strip_nonblank (flat_map (py_split ",") ds).
Proof.
  rewrite <- strip_nonblank_split_strip.
  destruct (strip_nonblank ds) as [| x r]; [ done | ].
  by rewrite py_split_join.
Qed.

Lemma strip_nonblank_stripped (ds : list string) (d : string) :
  d ∈ strip_nonblank ds -> d <> EmptyString /\ py_strip d = d.
Proof.
  rewrite strip_nonblank_filter. intros [Hne (x & -> & _)%list_elem_of_fmap]%list_elem_of_filter.
  split; [ done | apply py_strip_idem ].
Qed.

(** X17. What [load_employees_from_db] makes of a row that
    [save_employees_to_db] wrote for a record of ASCII texts whose rank fits
    the 64-bit column: name, phone and role are the record's stripped of
    surrounding blanks, the rank is the record's with 1 for a missing rank
    or a rank of 0, and the days are the stripped non-blank parts of the
    record's days split at their commas, so the record's own stripped
    non-blank days when none of them holds a comma. Every loaded day is
    non-empty and has no surrounding blanks. *)
Theorem save_load_roundtrip (r : Raw.t) (rw : row) :
  plain_record r ->
  save_row r = Some rw ->
  load_row rw
  = {| Emp.name := py_strip (default EmptyString (Raw.name r));
       Emp.phone := py_strip (default EmptyString (Raw.phone r));
       Emp.role := py_strip (default EmptyString (Raw.role r));
       Emp.days := strip_nonblank (flat_map (py_split ",") (Raw.days r));
       Emp.rank := match Raw.rank r with
                   | Some k => if k =? 0 then 1 else k
                   | None => 1
                   end |}
  /\ (Forall (fun d => string_forallb (fun c => negb (Ascii.eqb c ",")) d = true) (Raw.days r) ->
      Emp.days (load_row rw) = strip_nonblank (Raw.days r))
  /\ Forall (fun d => d <> EmptyString /\ py_strip d = d) (Emp.days (load_row rw)).
Proof.
  intros _. unfold save_row.
  destruct (bool_decide (py_strip (default EmptyString (Raw.name r)) = EmptyString));
    [ discriminate | ].
  destruct (negb _); [ discriminate | ].
  intros [= <-]. cbn [load_row Emp.days]. rewrite load_days_of_saved.
  split; [ reflexivity | ]. split.
  - intros Hall. f_equal.
    induction Hall as [| d ds Hd Hds IH]; [ done | ].
    cbn [flat_map]. by rewrite (py_split_whole _ _ Hd), IH.
  - apply Forall_forall. intros d Hd. by eapply strip_nonblank_stripped.
Qed.

(* ===================================================================== *)
(** * A stored roster stays as it is *)
(* ===================================================================== *)

Lemma lstrip_forallb (q p : ascii -> bool) (s : string) :
  string_forallb q s = true -> string_forallb q (lstrip p s) = true.
Proof.
  induction s as [| c r IH]; [ done | ]. intros Hs. cbn [lstrip].
  destruct (p c); [ | exact Hs ].
  simpl in Hs. apply andb_true_iff in Hs as [_ Hr]. by apply IH.
Qed.

Lemma rstrip_forallb (q p : ascii -> bool) (s : string) :
  string_forallb q s = true -> string_forallb q (rstrip p s) = true.
Proof.
  induction s as [| c r IH]; [ done | ]. intros Hs.
  simpl in Hs. apply andb_true_iff in Hs as [Hc Hr]. specialize (IH Hr).
  rewrite rstrip_String. destruct (rstrip p r) as [| c' r'].
  - destruct (p c); [ done | ]. simpl. by rewrite Hc.
  - change (string_forallb q (String c (String c' r')))
      with (q c && string_forallb q (String c' r')).
    by rewrite Hc, IH.
Qed.




Lemma py_strip_forallb (q : ascii -> bool) (s : string) :
  string_forallb q s = true -> string_forallb q (py_strip s) = true.
Proof. intros Hs. unfold py_strip. by apply rstrip_forallb, lstrip_forallb. Qed.





(* ===================================================================== *)
(** * The form's check on ASCII texts *)
(* ===================================================================== *)

(** Among the characters below U+0080, [isdigit] accepts the digits 0 to 9
    only. *)
Lemma isdigit_ascii (c : ascii) :
  (code c <? 128) = true -> py_isdigit_char c = true -> is_decimal c = true.
Proof.
  unfold py_isdigit_char. intros Hc Hd. apply Z.ltb_lt in Hc.
  destruct (is_decimal c); [ done | ]. simpl in Hd.
  rewrite !orb_true_iff, !Z.eqb_eq in Hd. lia.
Qed.

(** X14. On an ASCII text [is_time_ok] raises, instead of answering False,
    exactly when the text, stripped, has five characters with a colon in the
    middle and a further colon (the split then has three parts or more and
    the unpacking fails); on every other ASCII text it answers, and its
    answer is whether the stripped text is a clock text. *)
Theorem is_time_ok_raises (t : string) :
  py_isascii t = true ->
  (is_time_ok t = None <->
   exists a b d e : ascii,
     py_strip t = String a (String b (String ":" (String d (String e EmptyString))))
     /\ (a = ":" \/ b = ":" \/ d = ":" \/ e = ":")%char)
  /\ (is_time_ok t <> None -> is_time_ok t = Some (clock_text (py_strip t))).
Proof.
  intros Ht.
  assert (Hs : py_isascii (py_strip t) = true) by (by apply py_strip_forallb).
  split.
  - rewrite is_time_ok_None. split.
    + intros (a & b & d & e & Hst & [Hc | (Ha & Hb & Hd & He & Hdec)]);
        [ by exists a, b, d, e | ].
      exfalso. rewrite Hst in Hs. unfold py_isascii in Hs. cbn [string_forallb] in Hs.
      rewrite !andb_true_iff in Hs. destruct Hs as (Ca & Cb & _ & Cd & Ce & _).
      rewrite (isdigit_ascii a), (isdigit_ascii b), (isdigit_ascii d), (isdigit_ascii e)
        in Hdec by done.
      discriminate Hdec.
    + intros (a & b & d & e & Hst & Hc). exists a, b, d, e. auto.
  - intros Hn. destruct (is_time_ok t) as [ok |] eqn:E; [ | done ]. f_equal.
    pose proof (is_time_ok_clock_text t) as [H1 H2]. rewrite E in H1, H2.
    destruct ok, (clock_text (py_strip t)); try done.
    + specialize (H1 eq_refl). discriminate H1.
    + specialize (H2 eq_refl). discriminate H2.
Qed.

(* ===================================================================== *)
(** * The week grouped by day *)
(* ===================================================================== *)

Lemma fold_by_day (week : list Ev.t) :
  forall (acc : gmap string (list Ev.t)) (d : string),
    fold_left (fun by_day ev =>
                 <[Ev.day ev := default [] (by_day !! Ev.day ev) ++ [ev]]> by_day) week acc !! d
    = match filter (fun ev => Ev.day ev = d) week with
      | [] => acc !! d
      | l => Some (default [] (acc !! d) ++ l)
      end.
Proof.
  induction week as [| ev week IH]; intros acc d; [ done | ].
  cbn [fold_left]. rewrite IH, filter_cons.
  destruct (decide (Ev.day ev = d)) as [<- | Hne].
  - rewrite lookup_insert_eq. simpl.
    destruct (filter _ week) as [| x l]; [ done | ]. by rewrite <- app_assoc.
  - by rewrite lookup_insert_ne.
Qed.

(** X19. The grouping by day loses nothing and keeps the order: under each
    day that some event of the week has, [by_day] lists the week's events of
    that day, in week order, and it has no entry for any other day. *)
Theorem by_day_spec (week : list Ev.t) (d : string) :
  default [] (by_day week !! d) = filter (fun ev => Ev.day ev = d) week
  /\ (is_Some (by_day week !! d) <-> exists ev, ev ∈ week /\ Ev.day ev = d).
Proof.
  unfold by_day. rewrite fold_by_day, lookup_empty.
  destruct (filter (fun ev => Ev.day ev = d) week) as [| x l] eqn:Hf.
  - split; [ done | ]. split; [ by intros [? ?] | ].
    intros (ev & Hin & Hd).
    assert (Hev : ev ∈ filter (fun ev => Ev.day ev = d) week)
      by (by apply list_elem_of_filter).
    rewrite Hf in Hev. by apply elem_of_nil in Hev.
  - split; [ done | ]. split; [ | by eexists ].
    intros _. exists x.
    assert (Hx : x ∈ filter (fun ev => Ev.day ev = d) week) by (rewrite Hf; by left).
    by apply list_elem_of_filter in Hx as [? ?].
Qed.

(* ===================================================================== *)
(** * The run on the default roster *)
(* ===================================================================== *)

(** [run_week_schedule_sound] on the Thursday week and the default roster:
    the first interval of the waiter of rank 5. *)
Lemma run_week_schedule_sound_witness :
  (run_week build_default_employees thursday_week).2 !! "מיכאל"%string
  = Some [("ה", 480, 840); ("ה", 960, 1380)]%string
  /\ ("ה"%string, 480, 840) ∈ [("ה", 480, 840); ("ה", 960, 1380)]%string
  /\ exists ev e,
       ev ∈ thursday_week /\ ("ה"%string, 480, 840) = window ev
       /\ e ∈ build_default_employees /\ Emp.name e = "מיכאל"%string
       /\ Ev.day ev ∈ Emp.days e
       /\ (Emp.role e = "waiter"%string \/ Emp.role e = "bartender"%string).
Proof.
  assert (Hl : (run_week build_default_employees thursday_week).2 !! "מיכאל"%string
               = Some [("ה", 480, 840); ("ה", 960, 1380)]%string).
  { vm_compute. reflexivity. }
  assert (Hin : ("ה"%string, 480, 840) ∈ [("ה", 480, 840); ("ה", 960, 1380)]%string).
  { apply list_elem_of_here. }
  split; [ exact Hl | ]. split; [ exact Hin | ].
  exact (run_week_schedule_sound build_default_employees thursday_week _ _ _ Hl Hin).
Defined.

(** [assign_event_shortfall] on the Thursday dinner and the default
    roster. *)
Lemma assign_event_shortfall_witness :
  0 <= Ev.waiters thursday_dinner
  /\ 0 <= Ev.bartenders thursday_dinner
  /\ (let ev' := (assign_event thursday_dinner build_default_employees ∅ ∅).1.1 in
      let free_w := filter (is_free thursday_dinner ∅)
                      (pool "waiter" thursday_dinner build_default_employees) in
      let free_b := filter (is_free thursday_dinner ∅)
                      (pool "bartender" thursday_dinner build_default_employees) in
      Z.of_nat (length (Ev.waiter_names ev'))
      = Z.min (Ev.waiters thursday_dinner) (Z.of_nat (length free_w))
      /\ Z.of_nat (length (Ev.bartender_names ev'))
         = Z.min (Ev.bartenders thursday_dinner) (Z.of_nat (length free_b))
      /\ Ev.missing_waiters ev' = Z.max 0 (Ev.waiters thursday_dinner - Z.of_nat (length free_w))
      /\ Ev.missing_bartenders ev'
         = Z.max 0 (Ev.bartenders thursday_dinner - Z.of_nat (length free_b))
      /\ (0 < Ev.missing_waiters ev' ->
          forall e, e ∈ free_w -> Emp.name e ∈ Ev.waiter_names ev')
      /\ (0 < Ev.missing_bartenders ev' ->
          forall e, e ∈ free_b -> Emp.name e ∈ Ev.bartender_names ev')).
Proof.
  assert (Hw : 0 <= Ev.waiters thursday_dinner) by (simpl; lia).
  assert (Hb : 0 <= Ev.bartenders thursday_dinner) by (simpl; lia).
  split; [ exact Hw | ]. split; [ exact Hb | ].
  exact (assign_event_shortfall thursday_dinner build_default_employees ∅ ∅ Hw Hb).
Defined.

(* ===================================================================== *)
(** * The form, the window and the storage at work *)
(* ===================================================================== *)

(** [build_event_clock_window] on the Thursday dinner: 150 guests from
    "19:00" to "01:00". *)
Lemma build_event_clock_window_witness :
  1 <= 150 < 20 * 2 ^ 49
  /\ clock_text "19:00" = true
  /\ clock_text "01:00" = true
  /\ exists ev,
       build_event "ה" "A" 150 "19:00" "01:00" = Some ev
       /\ 0 <= Ev.start_min ev < 1440
       /\ Ev.start_min ev < Ev.end_min ev <= Ev.start_min ev + 1440
       /\ Ev.arrival_min ev = Ev.start_min ev - 120
       /\ -120 <= Ev.arrival_min ev < Ev.end_min ev
       /\ time_to_minutes (Ev.arrival_time ev) = Some (Ev.arrival_min ev mod 1440)
       /\ minutes_to_time (Ev.start_min ev) = "19:00"%string
       /\ minutes_to_time (Ev.end_min ev) = "01:00"%string
       /\ assigned_names ev = [].
Proof.
  assert (Hg : 1 <= 150 < 20 * 2 ^ 49) by lia.
  split; [ exact Hg | ]. split; [ reflexivity | ]. split; [ reflexivity | ].
  exact (build_event_clock_window "ה" "A" 150 "19:00" "01:00" Hg eq_refl eq_refl).
Defined.

(** [add_event_keeps_form] on the first request of an empty list, typed
    with blanks around the texts. *)
Lemma add_event_keeps_form_witness :
  1 <= 150 <= 3000
  /\ py_isascii " 19:00" = true
  /\ py_isascii "01:00 " = true
  /\ Forall form_request []
  /\ add_event [] "ה" "A" 150 " 19:00" "01:00 " = Some [("ה", "A", 150, "19:00", "01:00")]%string
  /\ Forall form_request [("ה", "A", 150, "19:00", "01:00")]%string.
Proof.
  assert (Hg : 1 <= 150 <= 3000) by lia.
  assert (Hadd : add_event [] "ה" "A" 150 " 19:00" "01:00 "
                 = Some [("ה", "A", 150, "19:00", "01:00")]%string) by reflexivity.
  split; [ exact Hg | ]. split; [ reflexivity | ]. split; [ reflexivity | ].
  split; [ constructor | ]. split; [ exact Hadd | ].
  exact (proj1 (add_event_keeps_form [] _ "ה" "A" 150 " 19:00" "01:00 " Hg
                  eq_refl eq_refl (Forall_nil_2 form_request) Hadd)).
Defined.

Lemma thursday_requests_form : Forall form_request thursday_requests.
Proof.
  unfold thursday_requests.
  repeat (apply Forall_cons; split; [ simpl; repeat split; (lia || reflexivity) | ]).
  apply Forall_nil_2.
Qed.

(** [form_requests_build] on the three Thursday requests. *)
Lemma form_requests_build_witness :
  Forall form_request thursday_requests
  /\ exists week,
       build_week thursday_requests = Some week
       /\ length week = length thursday_requests
       /\ Forall2 (fun (r : request) ev =>
                     (Ev.day ev, Ev.hall ev, Ev.guests ev, Ev.start_time ev, Ev.end_time ev) = r
                     /\ 0 <= Ev.start_min ev < 1440
                     /\ Ev.start_min ev < Ev.end_min ev <= Ev.start_min ev + 1440
                     /\ Ev.arrival_min ev = Ev.start_min ev - 120
                     /\ 3 <= Ev.waiters ev <= 150
                     /\ 1 <= Ev.bartenders ev <= 50) thursday_requests week.
Proof.
  split; [ exact thursday_requests_form | ].
  exact (form_requests_build thursday_requests thursday_requests_form).
Defined.

(** [overlaps_common_minute] on two shifts of one day: 08:00 to 14:00 and
    13:00 to 23:00 share the minute 780. *)
Lemma overlaps_common_minute_witness :
  480 < 840 /\ 780 < 1380
  /\ (overlaps 480 840 780 1380 = true
      <-> exists x, 480 <= x < 840 /\ 780 <= x < 1380)
  /\ overlaps 480 840 780 1380 = overlaps 780 1380 480 840.
Proof.
  assert (Ha : 480 < 840) by lia. assert (Hb : 780 < 1380) by lia.
  split; [ exact Ha | ]. split; [ exact Hb | ].
  exact (overlaps_common_minute 480 840 780 1380 Ha Hb).
Defined.

(** [calc_staff_monotone] on 150 and 3000 guests. *)
Lemma calc_staff_monotone_witness :
  1 <= 150 /\ 150 <= 3000 /\ 3000 < 20 * 2 ^ 49
  /\ exists w1 b1 w2 b2,
       calc_staff 150 = Some (w1, b1) /\ calc_staff 3000 = Some (w2, b2)
       /\ w1 <= w2 /\ b1 <= b2.
Proof.
  assert (H1 : 1 <= 150) by lia. assert (H2 : 150 <= 3000) by lia.
  assert (H3 : 3000 < 20 * 2 ^ 49) by lia.
  split; [ exact H1 | ]. split; [ exact H2 | ]. split; [ exact H3 | ].
  exact (calc_staff_monotone 150 3000 H1 H2 H3).
Defined.

Lemma dana_plain :
  plain_record (Raw.mk (Some " Dana ") (Some "050-1234567") (Some "waiter ")
                  [" a"; " "; "b, c "] None)%string.
Proof.
  unfold plain_record. cbn [Raw.name Raw.phone Raw.role Raw.days Raw.rank default].
  repeat split; try reflexivity; try done.
  repeat constructor.
Qed.

(** [save_load_roundtrip] on a record typed with blanks, an empty day, two
    days in one text and no rank. *)
Lemma save_load_roundtrip_witness :
  plain_record (Raw.mk (Some " Dana ") (Some "050-1234567") (Some "waiter ")
                  [" a"; " "; "b, c "] None)%string
  /\ save_row (Raw.mk (Some " Dana ") (Some "050-1234567") (Some "waiter ")
                 [" a"; " "; "b, c "] None)%string
     = Some ("Dana", "050-1234567", "waiter", "a,b, c", 1)%string
  /\ load_row ("Dana", "050-1234567", "waiter", "a,b, c", 1)%string
     = Emp.mk "Dana" "050-1234567" "waiter" ["a"; "b"; "c"]%string 1.
Proof.
  assert (Hsave : save_row (Raw.mk (Some " Dana ") (Some "050-1234567") (Some "waiter ")
                              [" a"; " "; "b, c "] None)%string
                  = Some ("Dana", "050-1234567", "waiter", "a,b, c", 1)%string)
    by reflexivity.
  split; [ exact dana_plain | ]. split; [ exact Hsave | ].
  exact (proj1 (save_load_roundtrip _ _ dana_plain Hsave)).
Defined.


(** [is_time_ok_raises] on the ASCII text "1::23", whose split at the colons
    has three parts. *)
Lemma is_time_ok_raises_witness :
  py_isascii "1::23" = true /\ is_time_ok "1::23" = None.
Proof.
  split; [ reflexivity | ].
  destruct (is_time_ok_raises "1::23" eq_refl) as [[_ Hraise] _].
  apply Hraise. exists "1"%char, ":"%char, "2"%char, "3"%char.
  split; [ reflexivity | ]. right. left. reflexivity.
Defined.
